(** * SignifyLearn API: a shallow embedding of [main.py] and [schemas.py]

    The service is a set of FastAPI endpoints over six MongoDB collections
    ([gesture], [module], [quizquestion], [favorite], [user], [progress]).
    The module-level handle [db] is either [None] (no connection) or a
    database; every endpoint branches on it first.

    The embedding passes the handle explicitly: [option Store].  A store maps
    a collection name to its documents in natural (insertion) order, a
    document is a finite map from field names to JSON-like values.  The
    ObjectId that MongoDB adds to each stored document is left out: no
    endpoint reads, writes or projects it.  Filters compare scalar fields
    (the matching of a filter value against the elements of an array field
    is not modelled).  Strings are byte strings holding UTF-8.

    A handler that can fail returns a [Response]; a handler that writes
    returns the new handle next to its answer.  The file first gives the
    embedding, then the vocabulary of the specification, then the proofs. *)

From Stdlib Require Import ZArith String Ascii List Bool Lia.
From stdpp Require Import gmap strings list fin_maps.

Local Open Scope string_scope.
Local Open Scope list_scope.
Local Open Scope Z_scope.

(** ** Values and documents *)

#[warnings="-register-all"]
Inductive Value : Type :=
  | VNone
  | VBool (b : bool)
  | VInt (n : Z)
  | VStr (s : string)
  | VList (l : list Value).

#[global] Instance Value_eq_dec : EqDecision Value.
Proof.
  refine (fix go (x y : Value) {struct x} : Decision (x = y) :=
    match x, y with
    | VNone, VNone => left _
    | VBool a, VBool b => cast_if (decide (a = b))
    | VInt a, VInt b => cast_if (decide (a = b))
    | VStr a, VStr b => cast_if (decide (a = b))
    | VList a, VList b => cast_if (@list_eq_dec _ go a b)
    | _, _ => right _
    end); clear go; congruence.
Defined.

Abbreviation Doc := (gmap string Value).
Abbreviation Store := (gmap string (list Doc)).

(** A Python dict literal [{k1: v1, ...}]. *)
Definition dict (kvs : list (string * Value)) : Doc := list_to_map kvs.

(** [d.get(k)] and [d.get(k, dflt)]. *)
Definition get (d : Doc) (k : string) : Value := default VNone (d !! k).
Definition get_or (d : Doc) (k : string) (dflt : Value) : Value :=
  default dflt (d !! k).

Definition strs (l : list string) : Value := VList (VStr <$> l).
Definition ints (l : list Z) : Value := VList (VInt <$> l).

(** Truthiness of the objects the endpoints test with [if x:] / [if not x:]. *)
Definition truthy_str (q : option string) : bool :=
  match q with
  | Some (String _ _) => true
  | _ => false
  end.

Definition truthy_doc (d : option Doc) : bool :=
  match d with
  | Some m => negb (bool_decide (m = ∅))
  | None => false
  end.

(** ** Outcome of a request handler *)

Inductive Response (A : Type) : Type :=
  | Ok (a : A)
  | HTTPException (status_code : Z) (detail : string)
  | Raised (exn : string).
Arguments Ok {A} a.
Arguments HTTPException {A} status_code detail.
Arguments Raised {A} exn.

(** ** Text as the database reads it

    A stored string is UTF-8; the regex engine works on its code points.
    [decode_step] reads one code point; a byte that does not start a
    well-formed sequence is read as a code point of its own. *)

Definition continuation (s : string) : option (N * string) :=
  match s with
  | String b rest =>
      let n := N_of_ascii b in
      if ((128 <=? n) && (n <? 192))%N then Some ((n - 128)%N, rest) else None
  | EmptyString => None
  end.

Definition decode_step (s : string) : option (N * string) :=
  match s with
  | EmptyString => None
  | String b0 r0 =>
      let n0 := N_of_ascii b0 in
      Some
        (default (n0, r0)
           (if (n0 <? 192)%N then None
            else if (n0 <? 224)%N then
              '(c1, r1) ← continuation r0;
              Some (((n0 - 192) * 64 + c1)%N, r1)
            else if (n0 <? 240)%N then
              '(c1, r1) ← continuation r0;
              '(c2, r2) ← continuation r1;
              Some ((((n0 - 224) * 64 + c1) * 64 + c2)%N, r2)
            else
              '(c1, r1) ← continuation r0;
              '(c2, r2) ← continuation r1;
              '(c3, r3) ← continuation r2;
              Some (((((n0 - 240) * 64 + c1) * 64 + c2) * 64 + c3)%N, r3)))
  end.

Fixpoint decode_fuel (fuel : nat) (s : string) : list N :=
  match fuel with
  | O => []
  | S fuel' =>
      match decode_step s with
      | Some (c, rest) => c :: decode_fuel fuel' rest
      | None => []
      end
  end.

Definition utf8_decode (s : string) : list N :=
  decode_fuel (String.length s) s.

(** ** The regex engine behind [$regex]

    The engine belongs to the database.  Two things about it are left open
    and taken as parameters: which code points beyond ASCII it treats as
    the same letter under option [i] ([ufold] gives the representative of a
    code point), and what it does with a pattern that uses metacharacters
    other than [.] ([pcre]: [None] when it rejects the pattern, otherwise
    the search the pattern stands for).  Patterns made of ordinary
    characters and [.] are searched as below. *)

Record Engine : Type := {
  ufold : N -> N;
  pcre : string -> option (list N -> bool)
}.

Definition ascii_lower (c : N) : N :=
  if ((65 <=? c) && (c <=? 90))%N then (c + 32)%N else c.

(** Case folding of option [i]: [A]..[Z] to [a]..[z], the engine's own
    beyond ASCII. *)
Definition fold (E : Engine) (c : N) : N :=
  if (c <? 128)%N then ascii_lower c else ufold E c.

Inductive Atom : Type :=
  | Lit (c : N)
  | AnyChar.

Definition is_meta (c : N) : bool :=
  existsb (N.eqb c)
    (N_of_ascii <$>
       ["\"; "^"; "$"; "."; "|"; "?"; "*"; "+"; "("; ")"; "["; "]"; "{"; "}"]%char).

Definition dot : N := N_of_ascii "."%char.
Definition newline : N := 10%N.

(** The fragment searched here; [None] for any other pattern. *)
Fixpoint regex_fragment (pat : list N) : option (list Atom) :=
  match pat with
  | [] => Some []
  | c :: rest =>
      if N.eqb c dot then (AnyChar ::.) <$> regex_fragment rest
      else if is_meta c then None
      else (Lit c ::.) <$> regex_fragment rest
  end.

Definition atom_match_i (E : Engine) (a : Atom) (c : N) : bool :=
  match a with
  | Lit x => N.eqb (fold E x) (fold E c)
  | AnyChar => negb (N.eqb c newline)
  end.

Fixpoint match_here_i (E : Engine) (p : list Atom) (s : list N) : bool :=
  match p, s with
  | [], _ => true
  | a :: p', c :: s' => atom_match_i E a c && match_here_i E p' s'
  | _ :: _, [] => false
  end.

(** Unanchored search with option [i]. *)
Fixpoint regex_search_i (E : Engine) (p : list Atom) (s : list N) : bool :=
  match_here_i E p s ||
  match s with
  | [] => false
  | _ :: s' => regex_search_i E p s'
  end.

(** Before it compiles a pattern the server refuses one of more than
    [MaxPatternSize] bytes and one with a NUL byte in it. *)
Definition MaxPatternSize : N := 32764.

Fixpoint has_nul (s : string) : bool :=
  match s with
  | EmptyString => false
  | String b rest => N.eqb (N_of_ascii b) 0 || has_nul rest
  end.

Definition pattern_refused (pat : string) : bool :=
  (MaxPatternSize <? N.of_nat (String.length pat))%N || has_nul pat.

(** [{"$regex": pat, "$options": "i"}]: the search the server runs, or
    [None] when it rejects the pattern. *)
Definition regex_compile (E : Engine) (pat : string)
    : option (list N -> bool) :=
  if pattern_refused pat then None
  else
    match regex_fragment (utf8_decode pat) with
    | Some p => Some (regex_search_i E p)
    | None => pcre E pat
    end.

(** ** Query filters *)

Inductive Cond : Type :=
  | CEq (v : string)
  | CRegexI (search : list N -> bool).

Abbreviation Filter := (list (string * Cond)).

Definition cond_holds (c : Cond) (v : option Value) : bool :=
  match c, v with
  | CEq x, Some (VStr y) => String.eqb x y
  | CRegexI search, Some (VStr y) => search (utf8_decode y)
  | _, _ => false
  end.

Definition matches (f : Filter) (d : Doc) : bool :=
  forallb (fun kc => cond_holds kc.2 (d !! kc.1)) f.

(** ** The pymongo primitives the endpoints use *)

Definition coll (s : Store) (c : string) : list Doc := default [] (s !! c).

Definition has_collection (s : Store) (c : string) : bool :=
  bool_decide (is_Some (s !! c)).

Definition count_documents (s : Store) (c : string) : nat := length (coll s c).

Definition insert_many (c : string) (docs : list Doc) (s : Store) : Store :=
  <[c := coll s c ++ docs]> s.

Definition insert_one (c : string) (d : Doc) (s : Store) : Store :=
  insert_many c [d] s.

Definition find (s : Store) (c : string) (f : Filter) : list Doc :=
  List.filter (matches f) (coll s c).

Definition find_one (s : Store) (c : string) (f : Filter) : option Doc :=
  head (find s c f).

(** Largest integer BSON can carry. *)
Definition INT64_MAX : Z := 2 ^ 63 - 1.

(** [cursor.skip(n).limit(m)]: a negative skip raises [ValueError], a number
    beyond 64 bits cannot be encoded, a limit of [0] means no limit, and a
    negative limit asks for a single batch of at most [|m|] documents. *)
Definition skip_limit (n m : Z) (docs : list Doc) : Response (list Doc) :=
  if n <? 0 then Raised "ValueError"
  else if (INT64_MAX <? n) || (INT64_MAX <? Z.abs m) then Raised "OverflowError"
  else
    let rest := drop (Z.to_nat n) docs in
    Ok (if m =? 0 then rest else take (Z.to_nat (Z.abs m)) rest).

(** [update_one(filter, {"$set": sets})]: the first matching document gets the
    fields of [sets]; [None] when nothing matches. *)
Definition apply_set (sets : list (string * Value)) (d : Doc) : Doc :=
  foldl (fun acc kv => <[kv.1 := kv.2]> acc) d sets.

Fixpoint update_first (f : Filter) (sets : list (string * Value))
    (docs : list Doc) : option (list Doc) :=
  match docs with
  | [] => None
  | d :: ds =>
      if matches f d then Some (apply_set sets d :: ds)
      else (d ::.) <$> update_first f sets ds
  end.

(** The equality conditions of a filter, as fields of an upserted document. *)
Fixpoint filter_fields (f : Filter) : list (string * Value) :=
  match f with
  | [] => []
  | (k, CEq v) :: f' => (k, VStr v) :: filter_fields f'
  | (_, CRegexI _) :: f' => filter_fields f'
  end.

Definition update_one_upsert (c : string) (f : Filter)
    (sets : list (string * Value)) (s : Store) : Store :=
  match update_first f sets (coll s c) with
  | Some docs => <[c := docs]> s
  | None => insert_one c (apply_set sets (dict (filter_fields f))) s
  end.

(** What the driver can encode as BSON: an integer must fit in 64 bits
    (otherwise [OverflowError], before anything is sent).  The documents the
    handlers insert hold strings and small constants only; the one place
    where a caller's integers reach the driver is [update_one]. *)
Definition INT64_MIN : Z := - 2 ^ 63.

Definition int64 (n : Z) : bool := (INT64_MIN <=? n) && (n <=? INT64_MAX).

Fixpoint bson_encodable (v : Value) : bool :=
  match v with
  | VInt n => int64 n
  | VList l => forallb bson_encodable l
  | _ => true
  end.

(** [db[c].update_one(filter, {"$set": sets}, upsert=True)]: the command is
    encoded, then the server applies it. *)
Definition update_one (c : string) (f : Filter) (sets : list (string * Value))
    (s : Store) : Response Store :=
  if forallb (fun kv => bson_encodable kv.2) sets
  then Ok (update_one_upsert c f sets s)
  else Raised "OverflowError".

(** Modelled from the spec: [create_document] is defined in the repository's
    [database] module, which is not among the sources.  The spec describes
    its use as persisting (inserting) the given document into the named
    collection. *)
Definition create_document (c : string) (data : Doc) (s : Store) : Store :=
  insert_one c data s.

(** ** Request bodies *)

Module FavoriteIn.
Record t : Type := { user_email : string; gesture_slug : string }.
Definition model_dump (p : t) : Doc :=
  dict [("user_email", VStr (user_email p));
        ("gesture_slug", VStr (gesture_slug p))].
End FavoriteIn.

Module ProgressIn.
Record t : Type :=
  { user_email : string; module_slug : string; completed_lessons : list Z }.
End ProgressIn.

(** ** Seed data *)

Definition gestures : list Doc :=
  [ dict [("name", VStr "A");
          ("slug", VStr "a");
          ("category", VStr "A-Z");
          ("difficulty", VStr "Pemula");
          ("thumbnail", VStr "/gestures/a.png");
          ("video_url", VStr "https://videos.example.com/a.mp4");
          ("steps", strs ["Angkat tangan kanan"; "Bentuk huruf A"]);
          ("examples", strs ["Nama saya"]);
          ("tags", strs ["alphabet"; "basic"])];
    dict [("name", VStr "B");
          ("slug", VStr "b");
          ("category", VStr "A-Z");
          ("difficulty", VStr "Pemula");
          ("thumbnail", VStr "/gestures/b.png");
          ("video_url", VStr "https://videos.example.com/b.mp4");
          ("steps", strs ["Angkat tangan"; "Bentuk huruf B"]);
          ("examples", strs ["Belajar"]);
          ("tags", strs ["alphabet"; "basic"])];
    dict [("name", VStr "Terima Kasih");
          ("slug", VStr "terima-kasih");
          ("category", VStr "Kata Dasar");
          ("difficulty", VStr "Pemula");
          ("thumbnail", VStr "/gestures/terima-kasih.png");
          ("video_url", VStr "https://videos.example.com/thanks.mp4");
          ("steps", strs ["Sentuh dagu"; "Gerakkan tangan menjauh"]);
          ("examples", strs ["Terima kasih atas bantuanmu"]);
          ("tags", strs ["basic"; "courtesy"])] ].

Definition modules : list Doc :=
  [ dict [("title", VStr "Dasar-Dasar Bahasa Isyarat");
          ("slug", VStr "dasar-dasar");
          ("summary", VStr "Mulai dari alfabet, angka, dan salam");
          ("cover", VStr "/covers/basic.png");
          ("lessons", strs ["Alfabet"; "Angka"; "Salam"]);
          ("difficulty", VStr "Pemula")];
    dict [("title", VStr "Ekspresi Emosi");
          ("slug", VStr "ekspresi-emosi");
          ("summary", VStr "Bahasa isyarat untuk emosi umum");
          ("cover", VStr "/covers/emotion.png");
          ("lessons", strs ["Senang"; "Sedih"; "Marah"]);
          ("difficulty", VStr "Menengah")] ].

Definition quizzes : list Doc :=
  [ dict [("module_slug", VStr "dasar-dasar");
          ("prompt", VStr "Gestur mana yang berarti 'Terima Kasih'?");
          ("media", VNone);
          ("options", strs ["Sentuh dagu lalu jauhkan tangan"; "Kepal tangan";
                            "Telapak ke atas"]);
          ("answer_index", VInt 0)] ].

(** [c not in db.list_collection_names() or db[c].count_documents({}) == 0] *)
Definition absent_or_empty (s : Store) (c : string) : bool :=
  negb (has_collection s c) || (count_documents s c =? 0)%nat.

Definition ensure_seed_data (db : option Store) : option Store :=
  match db with
  | None => None
  | Some s =>
      let s :=
        if absent_or_empty s "gesture" then insert_many "gesture" gestures s
        else s in
      let s :=
        if absent_or_empty s "module" then insert_many "module" modules s
        else s in
      let s :=
        if absent_or_empty s "quizquestion"
        then insert_many "quizquestion" quizzes s
        else s in
      Some s
  end.

(** ** Gestures *)

Definition gesture_out (g : Doc) : Doc :=
  dict [("name", get g "name");
        ("slug", get g "slug");
        ("category", get g "category");
        ("difficulty", get_or g "difficulty" (VStr "Pemula"));
        ("thumbnail", get g "thumbnail")].

Definition resp_map {A B : Type} (f : A -> B) (r : Response A) : Response B :=
  match r with
  | Ok a => Ok (f a)
  | HTTPException c d => HTTPException c d
  | Raised e => Raised e
  end.

(** The filter dict [list_gestures] builds; [None] when the server rejects
    [q] as a pattern. *)
Definition gesture_filters (E : Engine) (q category : option string)
    : option Filter :=
  name_part ←
    (if truthy_str q
     then (fun search => [("name", CRegexI search)])
            <$> regex_compile E (default "" q)
     else Some []);
  Some (name_part ++
        (if truthy_str category then [("category", CEq (default "" category))]
         else [])).

(** The cursor is built ([skip] checks its argument) and encoded before the
    server sees the filter, so a bad page comes before a rejected pattern. *)
Definition list_gestures (E : Engine) (db : option Store)
    (q category : option string) (page page_size : Z) : Response (list Doc) :=
  match db with
  | None => Ok []
  | Some s =>
      match gesture_filters E q category with
      | Some filters =>
          let cursor :=
            skip_limit ((page - 1) * page_size) page_size
              (find s "gesture" filters) in
          resp_map (fmap gesture_out) cursor
      | None =>
          match skip_limit ((page - 1) * page_size) page_size [] with
          | Ok _ => Raised "OperationFailure"
          | HTTPException status_code detail => HTTPException status_code detail
          | Raised exn => Raised exn
          end
      end
  end.

Definition gesture_detail (doc : Doc) : Doc :=
  dict [("name", get doc "name");
        ("slug", get doc "slug");
        ("category", get doc "category");
        ("difficulty", get_or doc "difficulty" (VStr "Pemula"));
        ("thumbnail", get doc "thumbnail");
        ("video_url", get doc "video_url");
        ("steps", get_or doc "steps" (VList []));
        ("examples", get_or doc "examples" (VList []));
        ("tags", get_or doc "tags" (VList []))].

Definition get_gesture (db : option Store) (slug : string) : Response Doc :=
  match db with
  | None => HTTPException 404 "Not found"
  | Some s =>
      let doc := find_one s "gesture" [("slug", CEq slug)] in
      if negb (truthy_doc doc) then HTTPException 404 "Gesture not found"
      else
        match doc with
        | Some doc => Ok (gesture_detail doc)
        | None => Raised "AttributeError"
        end
  end.

(** ** Modules *)

Definition module_out (m : Doc) : Doc :=
  dict [("title", get m "title");
        ("slug", get m "slug");
        ("summary", get m "summary");
        ("cover", get m "cover");
        ("difficulty", get_or m "difficulty" (VStr "Pemula"))].

Definition list_modules (db : option Store) : list Doc :=
  match db with
  | None => []
  | Some s => module_out <$> find s "module" []
  end.

Definition module_detail (m : Doc) : Doc :=
  dict [("title", get m "title");
        ("slug", get m "slug");
        ("summary", get m "summary");
        ("cover", get m "cover");
        ("lessons", get_or m "lessons" (VList []));
        ("difficulty", get_or m "difficulty" (VStr "Pemula"))].

Definition get_module (db : option Store) (slug : string) : Response Doc :=
  match db with
  | None => HTTPException 404 "Not found"
  | Some s =>
      let m := find_one s "module" [("slug", CEq slug)] in
      if negb (truthy_doc m) then HTTPException 404 "Module not found"
      else
        match m with
        | Some m => Ok (module_detail m)
        | None => Raised "AttributeError"
        end
  end.

(** ** Quizzes *)

Definition quiz_out (q : Doc) : Doc :=
  dict [("module_slug", get q "module_slug");
        ("prompt", get q "prompt");
        ("media", get q "media");
        ("options", get_or q "options" (VList []));
        ("answer_index", get_or q "answer_index" (VInt 0))].

Definition get_quiz (db : option Store) (module_slug : string) : list Doc :=
  match db with
  | None => []
  | Some s => quiz_out <$> find s "quizquestion" [("module_slug", CEq module_slug)]
  end.

(** ** Favorites *)

Definition favorite_out (f : Doc) : Doc :=
  dict [("user_email", get f "user_email");
        ("gesture_slug", get f "gesture_slug")].

Definition list_favorites (db : option Store) (user_email : string) : list Doc :=
  match db with
  | None => []
  | Some s => favorite_out <$> find s "favorite" [("user_email", CEq user_email)]
  end.

Definition ok (b : bool) : Doc := dict [("ok", VBool b)].

Definition add_favorite (db : option Store) (payload : FavoriteIn.t)
    : option Store * Doc :=
  match db with
  | None => (None, ok false)
  | Some s =>
      let existing :=
        find_one s "favorite"
          [("user_email", CEq (FavoriteIn.user_email payload));
           ("gesture_slug", CEq (FavoriteIn.gesture_slug payload))] in
      if truthy_doc existing then (Some s, ok true)
      else
        let s := create_document "favorite" (FavoriteIn.model_dump payload) s in
        (Some s, ok true)
  end.

(** ** Profile *)

Definition user_profile (u : Doc) : Doc :=
  dict [("name", get_or u "name" (VStr "Pengguna"));
        ("email", get u "email");
        ("avatar", get u "avatar");
        ("points", get_or u "points" (VInt 0));
        ("level", get_or u "level" (VInt 1));
        ("streak", get_or u "streak" (VInt 0));
        ("badges", get_or u "badges" (VList []))].

Definition get_profile (db : option Store) (email : string)
    : option Store * Response Doc :=
  match db with
  | None => (None, HTTPException 404 "Not found")
  | Some s =>
      let u := find_one s "user" [("email", CEq email)] in
      let '(s, u) :=
        if negb (truthy_doc u) then
          let profile :=
            dict [("name", VStr "Pengguna"); ("email", VStr email);
                  ("points", VInt 120); ("level", VInt 2); ("streak", VInt 5);
                  ("badges", strs ["Pemula"])] in
          let s := create_document "user" profile s in
          (s, find_one s "user" [("email", CEq email)])
        else (s, u) in
      (Some s,
       match u with
       | Some u => Ok (user_profile u)
       | None => Raised "AttributeError"
       end)
  end.

(** ** Progress *)

Definition get_progress (db : option Store) (user_email module_slug : string)
    : Doc :=
  match db with
  | None => dict [("completed_lessons", VList [])]
  | Some s =>
      let p :=
        find_one s "progress"
          [("user_email", CEq user_email); ("module_slug", CEq module_slug)] in
      if truthy_doc p then
        match p with
        | Some p =>
            dict [("completed_lessons", get_or p "completed_lessons" (VList []))]
        | None => dict [("completed_lessons", VList [])]
        end
      else dict [("completed_lessons", VList [])]
  end.

Definition set_progress (db : option Store) (payload : ProgressIn.t)
    : option Store * Response Doc :=
  match db with
  | None => (None, Ok (ok false))
  | Some s =>
      match
        update_one "progress"
          [("user_email", CEq (ProgressIn.user_email payload));
           ("module_slug", CEq (ProgressIn.module_slug payload))]
          [("completed_lessons", ints (ProgressIn.completed_lessons payload))]
          s
      with
      | Ok s => (Some s, Ok (ok true))
      | HTTPException status_code detail =>
          (Some s, HTTPException status_code detail)
      | Raised exn => (Some s, Raised exn)
      end
  end.

(** ** Health and diagnostics

    [test_database] reads the environment variable [DATABASE_URL] and makes
    two calls into the driver, [db.name] and [db.list_collection_names()].
    What the environment holds and what the driver answers are inputs of
    the handler.  A call into the driver returns or raises; of an exception
    [e] the handler keeps [str(e)[:80]]. *)

Definition read_root : Doc := dict [("message", VStr "SignifyLearn API running")].

Inductive Try (A : Type) : Type :=
  | Returned (a : A)
  | Failed (message : string).
Arguments Returned {A} a.
Arguments Failed {A} message.

(** [s[n:]] and [s[:n]] on a Python string: [n] counts code points. *)
Fixpoint str_drop (n : nat) (s : string) : string :=
  match n with
  | O => s
  | S n' =>
      match decode_step s with
      | Some (_, rest) => str_drop n' rest
      | None => EmptyString
      end
  end.

Definition str_take (n : nat) (s : string) : string :=
  substring 0 (String.length s - String.length (str_drop n s)) s.

Definition test_database (db : option Store) (DATABASE_URL : option string)
    (name : Try string) (list_collection_names : Try (list string)) : Doc :=
  let response :=
    dict [("backend", VStr "✅ Running");
          ("database", VStr "❌ Not Available");
          ("database_url", VNone);
          ("database_name", VNone);
          ("connection_status", VStr "Not Connected");
          ("collections", VList [])] in
  match db with
  | Some _ =>
      let response := <["database" := VStr "✅ Available"]> response in
      let response :=
        <["database_url" :=
            VStr (if truthy_str DATABASE_URL then "✅ Set" else "❌ Not Set")]>
          response in
      match name with
      | Returned name =>
          let response := <["database_name" := VStr name]> response in
          let response := <["connection_status" := VStr "Connected"]> response in
          match list_collection_names with
          | Returned collections =>
              let response :=
                <["collections" := strs (take 10 collections)]> response in
              <["database" := VStr "✅ Connected & Working"]> response
          | Failed e =>
              <["database" :=
                  VStr ("⚠️ Connected but Error: " ++ str_take 80 e)]> response
          end
      | Failed e =>
          <["database" := VStr ("❌ Error: " ++ str_take 80 e)]> response
      end
  | None => <["database" := VStr "⚠️ Available but not initialized"]> response
  end.

(** ** The API as a transition system

    One request per step; the handlers that only read leave the store as it
    is.  [ReqSeed] is the call of [ensure_seed_data] at import time. *)

Inductive Request : Type :=
  | ReqSeed
  | ReqListGestures (q category : option string) (page page_size : Z)
  | ReqGetGesture (slug : string)
  | ReqListModules
  | ReqGetModule (slug : string)
  | ReqGetQuiz (module_slug : string)
  | ReqListFavorites (user_email : string)
  | ReqAddFavorite (payload : FavoriteIn.t)
  | ReqGetProfile (email : string)
  | ReqGetProgress (user_email module_slug : string)
  | ReqSetProgress (payload : ProgressIn.t).

Definition step (db : option Store) (r : Request) : option Store :=
  match r with
  | ReqSeed => ensure_seed_data db
  | ReqAddFavorite payload => (add_favorite db payload).1
  | ReqGetProfile email => (get_profile db email).1
  | ReqSetProgress payload => (set_progress db payload).1
  | _ => db
  end.

Inductive reachable : option Store -> Prop :=
  | reachable_empty : reachable (Some ∅)
  | reachable_step db r : reachable db -> reachable (step db r).

(** The store right after start-up on an empty database. *)
Definition seeded : option Store := ensure_seed_data (Some ∅).

(** * Specification vocabulary *)

(** ** Lookup by slug *)

Definition has_slug (slug : string) (d : Doc) : Prop :=
  d !! "slug" = Some (VStr slug).

Definition is_not_found {A : Type} (r : Response A) : Prop :=
  ∃ detail, r = HTTPException 404 detail.

(** [d] is the first document of collection [c] carrying [slug]. *)
Definition first_with_slug (s : Store) (c slug : string) (d : Doc) : Prop :=
  ∃ pre post, coll s c = pre ++ d :: post ∧ has_slug slug d
              ∧ ∀ y, y ∈ pre -> ¬ has_slug slug y.

Definition no_slug (s : Store) (c slug : string) : Prop :=
  ∀ d, d ∈ coll s c -> ¬ has_slug slug d.

(** The statement shared by the two handlers: [handler] looks [slug] up in
    collection [c] and projects the document with [detail]. *)
Definition lookup_by_slug_spec (handler : option Store -> string -> Response Doc)
    (c : string) (detail : Doc -> Doc) (db : option Store) (slug : string)
    : Prop :=
  (is_not_found (handler db slug) <->
     db = None ∨ ∃ s, db = Some s ∧ no_slug s c slug)
  ∧ (∀ s d, db = Some s -> first_with_slug s c slug d ->
       handler db slug = Ok (detail d))
  ∧ (∀ r, handler db slug = Ok r ->
       ∃ s d, db = Some s ∧ d ∈ coll s c ∧ has_slug slug d ∧ r = detail d)
  ∧ (∀ e, handler db slug ≠ Raised e).

(** ** Seeding *)

Definition seeded_collections : list (string * list Doc) :=
  [("gesture", gestures); ("module", modules); ("quizquestion", quizzes)].

(** A collection that is absent or holds no document. *)
Definition is_void (s : Store) (c : string) : Prop := coll s c = [].

Definition populated (s : Store) : Prop :=
  ∀ c, c ∈ seeded_collections.*1 -> (1 <= count_documents s c)%nat.

(** ** Fields *)

(** The string field [k] of [d] is [v]. *)
Definition field_is (k v : string) (d : Doc) : Prop := d !! k = Some (VStr v).

#[global] Instance field_is_dec (k v : string) (d : Doc) :
  Decision (field_is k v d).
Proof. unfold field_is. apply _. Defined.

(** ** Quiz questions *)

(** [options] is a non-empty list and [answer_index] a 0-based index into it. *)
Definition valid_question (q : Doc) : Prop :=
  ∃ opts i, q !! "options" = Some (VList opts)
            ∧ q !! "answer_index" = Some (VInt i)
            ∧ opts ≠ [] ∧ 0 <= i < Z.of_nat (length opts).

(** ** Progress records *)

(** [d] is a progress record of the pair ([user_email], [module_slug]). *)
Definition progress_key (user_email module_slug : string) (d : Doc) : Prop :=
  field_is "user_email" user_email d ∧ field_is "module_slug" module_slug d.

(** The record an upsert creates for a payload. *)
Definition new_progress (payload : ProgressIn.t) : Doc :=
  dict [("user_email", VStr (ProgressIn.user_email payload));
        ("module_slug", VStr (ProgressIn.module_slug payload));
        ("completed_lessons", ints (ProgressIn.completed_lessons payload))].

(** At most one element of [l] satisfies [P]. *)
Definition at_most_one {A : Type} (P : A -> Prop) (l : list A) : Prop :=
  ∀ i j x y, l !! i = Some x -> l !! j = Some y -> P x -> P y -> i = j.

Definition progress_filter (user_email module_slug : string) : Filter :=
  [("user_email", CEq user_email); ("module_slug", CEq module_slug)].

(** What start-up leaves in an empty database. *)
Definition seeded_store : Store :=
  insert_many "quizquestion" quizzes
    (insert_many "module" modules (insert_many "gesture" gestures ∅)).

(** ** Favorites and users *)

Definition favorite_key (user_email gesture_slug : string) (d : Doc) : Prop :=
  field_is "user_email" user_email d ∧ field_is "gesture_slug" gesture_slug d.

Definition favorite_filter (user_email gesture_slug : string) : Filter :=
  [("user_email", CEq user_email); ("gesture_slug", CEq gesture_slug)].

(** The profile [get_profile] creates for an unknown email. *)
Definition default_profile (email : string) : Doc :=
  dict [("name", VStr "Pengguna"); ("email", VStr email);
        ("points", VInt 120); ("level", VInt 2); ("streak", VInt 5);
        ("badges", strs ["Pemula"])].

#[global] Instance favorite_key_dec (u g : string) (d : Doc) :
  Decision (favorite_key u g d).
Proof. unfold favorite_key. apply _. Defined.

(** Number of stored favorites of a pair. *)
Definition count_favorites (s : Store) (user_email gesture_slug : string) : nat :=
  length (filter (favorite_key user_email gesture_slug) (coll s "favorite")).

(** The answer of [get_profile] for a freshly created profile. *)
Definition default_profile_out (email : string) : Doc :=
  dict [("name", VStr "Pengguna"); ("email", VStr email); ("avatar", VNone);
        ("points", VInt 120); ("level", VInt 2); ("streak", VInt 5);
        ("badges", VList [VStr "Pemula"])].

(** No user document carries [email]. *)
Definition unknown_email (s : Store) (email : string) : Prop :=
  ∀ d, d ∈ coll s "user" -> ¬ field_is "email" email d.

(** ** Gesture listing, as the spec words it *)

(** The code points of a string with letter case folded. *)
Definition folded (E : Engine) (s : string) : list N :=
  fold E <$> utf8_decode s.

(** [q] occurs in [name] as a substring, letter case ignored. *)
Definition contains_ci (E : Engine) (q name : string) : Prop :=
  ∃ pre post, folded E name = pre ++ folded E q ++ post.

(** [q] starts [s]; the step of the decision procedure below. *)
Fixpoint is_prefix (q s : list N) : bool :=
  match q, s with
  | [], _ => true
  | a :: q', b :: s' => N.eqb a b && is_prefix q' s'
  | _ :: _, [] => false
  end.

Fixpoint is_substring (q s : list N) : bool :=
  is_prefix q s ||
  match s with
  | [] => false
  | _ :: s' => is_substring q s'
  end.

(** A parameter counts as given when it is a non-empty string, as the
    handler's [if q:] and [if category:] have it. *)
Definition given (p : option string) : option string :=
  if truthy_str p then p else None.

(** The documents the spec selects: the name contains [q] (when given) and
    the category is [category] (when given). *)
Definition gesture_selected (E : Engine) (q category : option string)
    (d : Doc) : bool :=
  match given q with
  | Some x =>
      match d !! "name" with
      | Some (VStr name) => is_substring (folded E x) (folded E name)
      | _ => false
      end
  | None => true
  end
  &&
  match given category with
  | Some c => bool_decide (field_is "category" c d)
  | None => true
  end.

(** Offset pagination in the spec's words: skip [(page-1)*page_size], then
    at most [page_size]. *)
Definition list_gestures_spec (E : Engine) (s : Store)
    (q category : option string) (page page_size : Z) : list Doc :=
  gesture_out <$>
    take (Z.to_nat page_size)
      (drop (Z.to_nat ((page - 1) * page_size))
         (List.filter (gesture_selected E q category) (coll s "gesture"))).

(** A pattern without regex metacharacters. *)
Definition no_meta (x : string) : bool :=
  forallb (fun c => negb (is_meta c)) (utf8_decode x).

(** A query the server takes as literal text: absent, or a pattern it does
    not refuse and that has no metacharacter. *)
Definition plain_query (q : option string) : Prop :=
  ∀ x, q = Some x -> no_meta x = true ∧ pattern_refused x = false.

Definition literal (x : list N) : list Atom := Lit <$> x.

(** ASCII lower-casing of a string, byte by byte: two queries with the same
    image differ only in the case of their ASCII letters. *)
Definition lower_char (c : ascii) : ascii :=
  let n := nat_of_ascii c in
  if ((65 <=? n) && (n <=? 90))%nat then ascii_of_nat (n + 32) else c.

Fixpoint lower (s : string) : string :=
  match s with
  | EmptyString => EmptyString
  | String c rest => String (lower_char c) (lower rest)
  end.

(** An engine to evaluate examples with: no letters beyond ASCII, and every
    pattern outside the fragment rejected.  The examples use ASCII text and
    patterns of the fragment only, where every engine gives the same. *)
Definition ascii_engine : Engine :=
  {| ufold := fun c => c; pcre := fun _ => None |}.

(** ** Vocabulary of the further properties *)

#[global] Instance progress_key_dec (u m : string) (d : Doc) :
  Decision (progress_key u m d).
Proof. unfold progress_key. apply _. Defined.

(** Number of stored progress records of a pair, and of users of an email. *)
Definition count_progress (s : Store) (user_email module_slug : string) : nat :=
  length (filter (progress_key user_email module_slug) (coll s "progress")).

Definition count_users (s : Store) (email : string) : nat :=
  length (filter (field_is "email" email) (coll s "user")).

(** A writer that touches collection [c] only, and decides from it alone. *)
Definition writes_only (c : string) (w : option Store -> option Store) : Prop :=
  ∃ F : list Doc -> option (list Doc),
    ∀ s, w (Some s)
         = Some (match F (coll s c) with
                 | Some docs => <[c := docs]> s
                 | None => s
                 end).

(** The entries of one page of [list_gestures]; nothing when it fails. *)
Definition page_items (E : Engine) (db : option Store)
    (q category : option string) (page page_size : Z) : list Doc :=
  match list_gestures E db q category page page_size with
  | Ok l => l
  | _ => []
  end.

(** The gestures the filters select, before pagination. *)
Definition selected_gestures (E : Engine) (s : Store)
    (q category : option string) : list Doc :=
  List.filter (gesture_selected E q category) (coll s "gesture").

(** The collections a request may write. *)
Definition writes (r : Request) : list string :=
  match r with
  | ReqSeed => ["gesture"; "module"; "quizquestion"]
  | ReqAddFavorite _ => ["favorite"]
  | ReqGetProfile _ => ["user"]
  | ReqSetProgress _ => ["progress"]
  | _ => []
  end.

(** The [progress] collection after [set_progress], from the one before. *)
Definition upserted_progress (payload : ProgressIn.t) (docs : list Doc)
    : list Doc :=
  match update_first
          (progress_filter (ProgressIn.user_email payload)
             (ProgressIn.module_slug payload))
          [("completed_lessons", ints (ProgressIn.completed_lessons payload))]
          docs with
  | Some docs' => docs'
  | None => docs ++ [new_progress payload]
  end.

(** The six keys of the diagnostic answer. *)
Definition diagnostic_keys : gset string :=
  {["backend"; "database"; "database_url"; "database_name";
    "connection_status"; "collections"]}.

(** ** Integers the store can hold *)

(** Every element of [L] fits in a signed 64-bit integer. *)
Definition fits_int64 (L : list Z) : Prop :=
  Forall (fun n => INT64_MIN <= n <= INT64_MAX) L.

(** ** Projections

    [r] is the projection of the stored document [d] on [fields]: it has
    exactly these keys, each holding the stored value, or the field's
    default when [d] lacks the key. *)
Definition decoded_with (fields : list (string * Value)) (d r : Doc) : Prop :=
  dom r = list_to_set fields.*1
  ∧ ∀ k dflt, (k, dflt) ∈ fields -> r !! k = Some (default dflt (d !! k)).

(** The fields of a gesture detail, a module detail and a quiz question,
    with the value that stands for a missing field. *)
Definition gesture_detail_fields : list (string * Value) :=
  [("name", VNone); ("slug", VNone); ("category", VNone);
   ("difficulty", VStr "Pemula"); ("thumbnail", VNone); ("video_url", VNone);
   ("steps", VList []); ("examples", VList []); ("tags", VList [])].

Definition module_detail_fields : list (string * Value) :=
  [("title", VNone); ("slug", VNone); ("summary", VNone); ("cover", VNone);
   ("lessons", VList []); ("difficulty", VStr "Pemula")].

Definition quiz_fields : list (string * Value) :=
  [("module_slug", VNone); ("prompt", VNone); ("media", VNone);
   ("options", VList []); ("answer_index", VInt 0)].

(** * Properties *)

(** Equations between closed terms, by evaluation. *)
Ltac vm_refl :=
  lazymatch goal with
  | |- @eq ?T _ ?b => vm_cast_no_check (@eq_refl T b)
  | _ => vm_compute; reflexivity
  end.

(** ** Sanity checks on concrete inputs *)

Example seeded_counts :
  (fun s => (count_documents s "gesture", count_documents s "module",
             count_documents s "quizquestion")) <$> seeded
  = Some (3%nat, 2%nat, 1%nat).
Proof. vm_refl. Qed.

Example list_gestures_page2 :
  list_gestures ascii_engine seeded None None 2 1
  = Ok [dict [("name", VStr "B"); ("slug", VStr "b");
              ("category", VStr "A-Z"); ("difficulty", VStr "Pemula");
              ("thumbnail", VStr "/gestures/b.png")]].
Proof. vm_refl. Qed.

(** ** Store primitives *)

Section store_lemmas.
Implicit Types (s : Store) (c : string) (d : Doc) (f : Filter).

Lemma coll_insert_many_eq c docs s :
  coll (insert_many c docs s) c = coll s c ++ docs.
Proof. unfold coll at 1, insert_many. by rewrite lookup_insert_eq. Qed.

Lemma coll_insert_many_ne c c' docs s :
  c ≠ c' -> coll (insert_many c docs s) c' = coll s c'.
Proof. intros Hne. unfold coll, insert_many. by rewrite lookup_insert_ne. Qed.

Lemma lookup_insert_many_ne c c' docs s :
  c ≠ c' -> insert_many c docs s !! c' = s !! c'.
Proof. intros Hne. unfold insert_many. by rewrite lookup_insert_ne. Qed.

Lemma elem_of_find s c f d :
  d ∈ find s c f <-> d ∈ coll s c ∧ matches f d = true.
Proof. unfold find. rewrite !list_elem_of_In. apply filter_In. Qed.

Lemma find_one_Some s c f d :
  find_one s c f = Some d -> d ∈ coll s c ∧ matches f d = true.
Proof.
  unfold find_one. intros H. apply elem_of_find.
  destruct (find s c f) as [|x l]; simplify_eq/=. left.
Qed.

Lemma find_one_None s c f :
  find_one s c f = None <-> ∀ d, d ∈ coll s c -> matches f d = false.
Proof.
  unfold find_one. split.
  - intros H d Hd. destruct (matches f d) eqn:E; [|done].
    assert (d ∈ find s c f) as Hin by by apply elem_of_find.
    destruct (find s c f); [by apply elem_of_nil in Hin | done].
  - intros H. destruct (find s c f) as [|x l] eqn:E; [done|].
    assert (x ∈ find s c f) as Hx by (rewrite E; left).
    apply elem_of_find in Hx as [Hx Hm]. rewrite (H x Hx) in Hm. done.
Qed.

(** [find_one] returns the first match in collection order. *)
Lemma filter_head_split {A} (P : A -> bool) (l : list A) x :
  head (List.filter P l) = Some x <->
  ∃ pre post, l = pre ++ x :: post ∧ P x = true ∧ ∀ y, y ∈ pre -> P y = false.
Proof.
  induction l as [|a l IH]; simpl.
  - split; [done|]. intros (pre & post & H & _). by destruct pre.
  - destruct (P a) eqn:E; simpl.
    + split.
      * intros [= ->]. exists [], l. split_and!; [done..|].
        intros y Hy. by apply elem_of_nil in Hy.
      * intros (pre & post & H & Hx & Hpre). destruct pre as [|b pre].
        -- by simplify_eq/=.
        -- simplify_eq/=. rewrite Hpre in E; [done | left].
    + rewrite IH. split.
      * intros (pre & post & -> & Hx & Hpre). exists (a :: pre), post.
        split_and!; [done..|]. intros y [->|Hy]%elem_of_cons; auto.
      * intros (pre & post & H & Hx & Hpre). destruct pre as [|b pre].
        -- simplify_eq/=. congruence.
        -- simplify_eq/=. exists pre, post. split_and!; [done..|].
           intros y Hy. apply Hpre. by right.
Qed.

Lemma find_one_first s c f d :
  find_one s c f = Some d <->
  ∃ pre post, coll s c = pre ++ d :: post ∧ matches f d = true
              ∧ ∀ y, y ∈ pre -> matches f y = false.
Proof. apply filter_head_split. Qed.

Lemma matches_eq1 k v d :
  matches [(k, CEq v)] d = true <-> d !! k = Some (VStr v).
Proof.
  unfold matches; simpl. rewrite andb_true_r.
  destruct (d !! k) as [[| | |y|]|]; simpl; try (split; [done | congruence]).
  rewrite String.eqb_eq. split; congruence.
Qed.

Lemma matches_eq2 k1 v1 k2 v2 d :
  matches [(k1, CEq v1); (k2, CEq v2)] d = true <->
  d !! k1 = Some (VStr v1) ∧ d !! k2 = Some (VStr v2).
Proof.
  rewrite <- (matches_eq1 k1), <- (matches_eq1 k2). unfold matches; simpl.
  by rewrite !andb_true_r, andb_true_iff.
Qed.

Lemma matches_nil d : matches [] d = true.
Proof. done. Qed.

Lemma lookup_Some_nonempty d k v : d !! k = Some v -> d ≠ ∅.
Proof. intros H ->. by rewrite lookup_empty in H. Qed.

Lemma truthy_doc_Some d : d ≠ ∅ -> truthy_doc (Some d) = true.
Proof. intros H. simpl. by rewrite bool_decide_eq_false_2. Qed.

(** A document found by a filter with an equality condition is truthy. *)
Lemma truthy_find_one s c k v f d :
  find_one s c ((k, CEq v) :: f) = Some d -> truthy_doc (Some d) = true.
Proof.
  intros [_ Hm]%find_one_Some. apply truthy_doc_Some.
  unfold matches in Hm; simpl in Hm. apply andb_true_iff in Hm as [Hm _].
  destruct (d !! k) as [x|] eqn:E; [|by destruct v].
  by eapply lookup_Some_nonempty.
Qed.
End store_lemmas.

(** ** Lookup by slug: [get_gesture] and [get_module] *)

Lemma find_by_slug (s : Store) (c slug : string) :
  match find_one s c [("slug", CEq slug)] with
  | Some d => truthy_doc (Some d) = true ∧ first_with_slug s c slug d
  | None => no_slug s c slug
  end.
Proof.
  destruct (find_one s c [("slug", CEq slug)]) as [d|] eqn:E.
  - split; [by eapply truthy_find_one|].
    apply find_one_first in E as (pre & post & Hc & Hm & Hpre).
    exists pre, post. split_and!; [done | by apply matches_eq1 |].
    intros y Hy Hs. apply matches_eq1 in Hs. by rewrite (Hpre y Hy) in Hs.
  - intros d Hd Hs. apply matches_eq1 in Hs.
    rewrite find_one_None in E. by rewrite (E d Hd) in Hs.
Qed.

Lemma first_with_slug_unique (s : Store) (c slug : string) (d d' : Doc) :
  first_with_slug s c slug d -> first_with_slug s c slug d' -> d = d'.
Proof.
  intros (pre & post & Hc & Hd & Hpre) (pre' & post' & Hc' & Hd' & Hpre').
  rewrite Hc in Hc'. clear Hc. revert pre' Hc' Hpre'.
  induction pre as [|x pre IH]; intros [|x' pre'] Heq Hpre';
    injection Heq as Hhd Htl.
  - done.
  - subst x'. destruct (Hpre' d); [left | done].
  - subst x. destruct (Hpre d'); [left | done].
  - eapply IH; [|done|].
    + intros y Hy. apply Hpre. by right.
    + intros y Hy. apply Hpre'. by right.
Qed.

Lemma first_with_slug_not_no_slug (s : Store) (c slug : string) (d : Doc) :
  first_with_slug s c slug d -> ¬ no_slug s c slug.
Proof.
  intros (pre & post & Hc & Hd & _) Hno. apply (Hno d); [|done].
  rewrite Hc. apply elem_of_app. right. left.
Qed.

Lemma first_with_slug_elem (s : Store) (c slug : string) (d : Doc) :
  first_with_slug s c slug d -> d ∈ coll s c ∧ has_slug slug d.
Proof.
  intros (pre & post & Hc & Hd & _). split; [|done].
  rewrite Hc. apply elem_of_app. right. left.
Qed.

Lemma get_gesture_cases (s : Store) (slug : string) :
  (no_slug s "gesture" slug
   ∧ get_gesture (Some s) slug = HTTPException 404 "Gesture not found")
  ∨ (∃ d, first_with_slug s "gesture" slug d
          ∧ get_gesture (Some s) slug = Ok (gesture_detail d)).
Proof.
  pose proof (find_by_slug s "gesture" slug) as H. unfold get_gesture.
  destruct (find_one s "gesture" [("slug", CEq slug)]) as [d|].
  - destruct H as [-> H]. right. by exists d.
  - left. done.
Qed.

Lemma get_module_cases (s : Store) (slug : string) :
  (no_slug s "module" slug
   ∧ get_module (Some s) slug = HTTPException 404 "Module not found")
  ∨ (∃ m, first_with_slug s "module" slug m
          ∧ get_module (Some s) slug = Ok (module_detail m)).
Proof.
  pose proof (find_by_slug s "module" slug) as H. unfold get_module.
  destruct (find_one s "module" [("slug", CEq slug)]) as [d|].
  - destruct H as [-> H]. right. by exists d.
  - left. done.
Qed.

Lemma lookup_by_slug_holds (db : option Store) (slug : string) :
  lookup_by_slug_spec get_gesture "gesture" gesture_detail db slug
  ∧ lookup_by_slug_spec get_module "module" module_detail db slug.
Proof.
  split.
  - destruct db as [s|]; [|by split_and!; [split; [left | eexists] | ..]].
    destruct (get_gesture_cases s slug) as [[Hno Hr]|(d & Hd & Hr)];
      unfold lookup_by_slug_spec; rewrite Hr; split_and!.
    + split; [right; eauto | by eexists].
    + intros s' d [= <-] Hd. by destruct (first_with_slug_not_no_slug _ _ _ _ Hd).
    + done.
    + done.
    + split; [by intros [? ?] | intros [?|(s' & [= <-] & Hno)]; [done|]].
      by destruct (first_with_slug_not_no_slug _ _ _ _ Hd).
    + intros s' d' [= <-] Hd'. by rewrite (first_with_slug_unique _ _ _ _ _ Hd Hd').
    + intros r [= <-]. exists s, d.
      by destruct (first_with_slug_elem _ _ _ _ Hd).
    + done.
  - destruct db as [s|]; [|by split_and!; [split; [left | eexists] | ..]].
    destruct (get_module_cases s slug) as [[Hno Hr]|(d & Hd & Hr)];
      unfold lookup_by_slug_spec; rewrite Hr; split_and!.
    + split; [right; eauto | by eexists].
    + intros s' d [= <-] Hd. by destruct (first_with_slug_not_no_slug _ _ _ _ Hd).
    + done.
    + done.
    + split; [by intros [? ?] | intros [?|(s' & [= <-] & Hno)]; [done|]].
      by destruct (first_with_slug_not_no_slug _ _ _ _ Hd).
    + intros s' d' [= <-] Hd'. by rewrite (first_with_slug_unique _ _ _ _ _ Hd Hd').
    + intros r [= <-]. exists s, d.
      by destruct (first_with_slug_elem _ _ _ _ Hd).
    + done.
Qed.

Lemma decoded_gesture_detail (d : Doc) :
  decoded_with gesture_detail_fields d (gesture_detail d).
Proof.
  split.
  - unfold gesture_detail, dict. by rewrite dom_list_to_map_L.
  - intros k dflt Hin. unfold gesture_detail_fields in Hin.
    repeat (apply elem_of_cons in Hin as [[= -> ->]|Hin]);
      [..|by apply elem_of_nil in Hin]; reflexivity.
Qed.

Lemma decoded_module_detail (d : Doc) :
  decoded_with module_detail_fields d (module_detail d).
Proof.
  split.
  - unfold module_detail, dict. by rewrite dom_list_to_map_L.
  - intros k dflt Hin. unfold module_detail_fields in Hin.
    repeat (apply elem_of_cons in Hin as [[= -> ->]|Hin]);
      [..|by apply elem_of_nil in Hin]; reflexivity.
Qed.

Lemma detail_slug (detail : Doc -> Doc) (fields : list (string * Value))
    (d : Doc) (slug : string) (dflt : Value) :
  decoded_with fields d (detail d) -> ("slug", dflt) ∈ fields ->
  has_slug slug d -> detail d !! "slug" = Some (VStr slug).
Proof. intros [_ Hf] Hin Hs. rewrite (Hf _ _ Hin). by rewrite Hs. Qed.

(** C6. [get_gesture] and [get_module] answer 404 exactly when the database
    is unavailable or no document of the collection carries the slug;
    otherwise they return the projection of the (first) document with that
    slug.  An [Ok] answer is never an empty or default object: it carries
    the requested slug, has exactly the fields of a detail, and each field
    holds what a stored document with that slug holds (the default only
    where that document lacks the field).  No other failure occurs. *)
Theorem get_by_slug_not_found (db : option Store) (slug : string) :
  lookup_by_slug_spec get_gesture "gesture" gesture_detail db slug
  ∧ lookup_by_slug_spec get_module "module" module_detail db slug
  ∧ (∀ r, get_gesture db slug = Ok r ->
       r !! "slug" = Some (VStr slug) ∧ r ≠ ∅
       ∧ ∃ s d, db = Some s ∧ d ∈ coll s "gesture" ∧ has_slug slug d
                ∧ decoded_with gesture_detail_fields d r)
  ∧ (∀ r, get_module db slug = Ok r ->
       r !! "slug" = Some (VStr slug) ∧ r ≠ ∅
       ∧ ∃ s d, db = Some s ∧ d ∈ coll s "module" ∧ has_slug slug d
                ∧ decoded_with module_detail_fields d r).
Proof.
  destruct (lookup_by_slug_holds db slug) as [Hg Hm].
  split_and!; [done | done | |].
  - intros r Hr. destruct Hg as (_ & _ & Hok & _).
    destruct (Hok r Hr) as (s & d & -> & Hin & Hs & ->).
    assert (gesture_detail d !! "slug" = Some (VStr slug)) as Hslug.
    { eapply detail_slug; [apply decoded_gesture_detail | | done].
      right; left. }
    split_and!; [done | by eapply lookup_Some_nonempty |].
    exists s, d. split_and!; [done..|]. apply decoded_gesture_detail.
  - intros r Hr. destruct Hm as (_ & _ & Hok & _).
    destruct (Hok r Hr) as (s & d & -> & Hin & Hs & ->).
    assert (module_detail d !! "slug" = Some (VStr slug)) as Hslug.
    { eapply detail_slug; [apply decoded_module_detail | | done].
      right; left. }
    split_and!; [done | by eapply lookup_Some_nonempty |].
    exists s, d. split_and!; [done..|]. apply decoded_module_detail.
Qed.


(** ** Seeding: [ensure_seed_data] *)

Lemma absent_or_empty_void (s : Store) (c : string) :
  absent_or_empty s c = true <-> is_void s c.
Proof.
  unfold absent_or_empty, has_collection, count_documents, is_void, coll.
  destruct (s !! c) as [[|d l]|]; simpl; done.
Qed.

Lemma seed_if_lookup_eq (s : Store) (c : string) (batch : list Doc) :
  (if absent_or_empty s c then insert_many c batch s else s) !! c
  = if decide (is_void s c) then Some batch else s !! c.
Proof.
  destruct (absent_or_empty s c) eqn:E.
  - apply absent_or_empty_void in E. rewrite decide_True by done.
    unfold insert_many. rewrite lookup_insert_eq. unfold is_void in E.
    by rewrite E.
  - rewrite decide_False; [done|]. intros H%absent_or_empty_void. congruence.
Qed.

Lemma seed_if_lookup_ne (s : Store) (c c' : string) (batch : list Doc) :
  c ≠ c' ->
  (if absent_or_empty s c then insert_many c batch s else s) !! c' = s !! c'.
Proof.
  intros Hne. destruct (absent_or_empty s c); [|done].
  by apply lookup_insert_many_ne.
Qed.

Lemma seed_if_void_ne (s : Store) (c c' : string) (batch : list Doc) :
  c ≠ c' ->
  absent_or_empty (if absent_or_empty s c then insert_many c batch s else s) c'
  = absent_or_empty s c'.
Proof.
  intros Hne. unfold absent_or_empty at 1 3.
  unfold has_collection, count_documents, coll.
  by rewrite seed_if_lookup_ne.
Qed.

Lemma ensure_seed_data_lookup (s : Store) :
  ∃ s', ensure_seed_data (Some s) = Some s'
        ∧ (∀ c batch, (c, batch) ∈ seeded_collections ->
             s' !! c = if decide (is_void s c) then Some batch else s !! c)
        ∧ (∀ c, c ∉ seeded_collections.*1 -> s' !! c = s !! c).
Proof.
  eexists. split; [reflexivity|]. split.
  - intros c batch Hin. unfold seeded_collections in Hin.
    repeat (apply elem_of_cons in Hin as [[= -> ->]|Hin]);
      [..|by apply elem_of_nil in Hin].
    + rewrite !seed_if_lookup_ne by done. apply seed_if_lookup_eq.
    + rewrite seed_if_lookup_ne by done. rewrite seed_if_lookup_eq.
      unfold is_void, coll. by rewrite seed_if_lookup_ne.
    + rewrite seed_if_lookup_eq.
      unfold is_void, coll. by rewrite !seed_if_lookup_ne.
  - intros c Hc. simpl in Hc.
    assert ("gesture" ≠ c ∧ "module" ≠ c ∧ "quizquestion" ≠ c)
      as (H1 & H2 & H3) by (split_and!; intros <-; apply Hc; set_solver).
    by rewrite !seed_if_lookup_ne.
Qed.

Lemma populated_not_void (s : Store) (c : string) :
  populated s -> c ∈ seeded_collections.*1 -> absent_or_empty s c = false.
Proof.
  intros Hp Hc. specialize (Hp c Hc). unfold count_documents in Hp.
  destruct (absent_or_empty s c) eqn:E; [|done].
  apply absent_or_empty_void in E. unfold is_void in E. rewrite E in Hp.
  simpl in Hp. lia.
Qed.

Lemma ensure_seed_data_populated (s : Store) :
  populated s -> ensure_seed_data (Some s) = Some s.
Proof.
  intros Hp. unfold ensure_seed_data.
  rewrite (populated_not_void s "gesture") by (done || set_solver).
  rewrite (populated_not_void s "module") by (done || set_solver).
  rewrite (populated_not_void s "quizquestion") by (done || set_solver).
  done.
Qed.

(** After a run every seeded collection holds a document. *)
Lemma ensure_seed_data_makes_populated (s s' : Store) :
  ensure_seed_data (Some s) = Some s' -> populated s'.
Proof.
  intros H. destruct (ensure_seed_data_lookup s) as (s2 & H2 & Hl & _).
  rewrite H in H2. injection H2 as <-.
  intros c Hc. apply list_elem_of_fmap in Hc as ([c' batch] & -> & Hin).
  simpl. unfold count_documents, coll. rewrite (Hl _ _ Hin).
  case_decide as Hv.
  - unfold seeded_collections in Hin.
    repeat (apply elem_of_cons in Hin as [[= -> ->]|Hin]);
      [..|by apply elem_of_nil in Hin]; simpl; lia.
  - clear H Hl Hin. unfold is_void, coll in Hv.
    destruct (s !! c') as [[|d l]|]; [done | simpl; lia | done].
Qed.

(** C5. [ensure_seed_data] does nothing and does not fail without a
    database.  With one, each of [gesture], [module] and [quizquestion]
    receives its fixed batch (3, 2 and 1 documents) exactly when it is absent
    or empty, and is left as it is otherwise; no other collection changes.
    On a store where the three collections hold at least one document each a
    run changes nothing, so a second run never duplicates records. *)
Theorem ensure_seed_data_idempotent :
  ensure_seed_data None = None
  ∧ (length gestures, length modules, length quizzes) = (3, 2, 1)%nat
  ∧ (∀ s, ∃ s', ensure_seed_data (Some s) = Some s'
        ∧ (∀ c batch, (c, batch) ∈ seeded_collections ->
             s' !! c = if decide (is_void s c) then Some batch else s !! c)
        ∧ (∀ c, c ∉ seeded_collections.*1 -> s' !! c = s !! c))
  ∧ (∀ s, populated s -> ensure_seed_data (Some s) = Some s)
  ∧ (∀ db, ensure_seed_data (ensure_seed_data db) = ensure_seed_data db).
Proof.
  split_and!; [done | done | apply ensure_seed_data_lookup
              | apply ensure_seed_data_populated |].
  intros [s|]; [|done].
  destruct (ensure_seed_data (Some s)) as [s'|] eqn:E; [|done].
  apply ensure_seed_data_populated. by eapply ensure_seed_data_makes_populated.
Qed.

(** A second run on the freshly seeded store leaves it as it is, and a store
    that already holds one gesture keeps it and gets no seed gesture. *)
Lemma ensure_seed_data_idempotent_witness :
  ensure_seed_data seeded = seeded
  ∧ ensure_seed_data (Some {["gesture" := [dict [("slug", VStr "x")]]]})
    = Some (<["quizquestion" := quizzes]>
              (<["module" := modules]>
                 {["gesture" := [dict [("slug", VStr "x")]]]})).
Proof.
  destruct ensure_seed_data_idempotent as (_ & _ & _ & _ & Hidem).
  split; [apply (Hidem (Some ∅))|]. vm_refl.
Defined.

(** ** Unavailable database *)

(** C7. Without a database the list endpoints return an empty list,
    [get_progress] returns an empty [completed_lessons], the two writers
    answer [{ok: false}]; [list_gestures] does so whatever its parameters,
    none of them fails, and the handle stays unavailable after any request. *)
Theorem unavailable_degrades :
  (∀ E q category page page_size,
     list_gestures E None q category page page_size = Ok [])
  ∧ list_modules None = []
  ∧ (∀ module_slug, get_quiz None module_slug = [])
  ∧ (∀ user_email, list_favorites None user_email = [])
  ∧ (∀ user_email module_slug,
       get_progress None user_email module_slug
       = dict [("completed_lessons", VList [])])
  ∧ (∀ payload, add_favorite None payload = (None, dict [("ok", VBool false)]))
  ∧ (∀ payload,
       set_progress None payload = (None, Ok (dict [("ok", VBool false)])))
  ∧ (∀ r, step None r = None).
Proof. split_and!; try done. by intros []. Qed.

(** ** Quizzes: [get_quiz] *)

Lemma matches_eq1_decide (k v : string) (d : Doc) :
  matches [(k, CEq v)] d = bool_decide (field_is k v d).
Proof.
  destruct (matches [(k, CEq v)] d) eqn:E.
  - apply matches_eq1 in E. by rewrite bool_decide_eq_true_2.
  - rewrite bool_decide_eq_false_2; [done|]. intros H%matches_eq1. congruence.
Qed.

Lemma list_filter_bool_decide {A} (P : A -> Prop) `{!∀ x, Decision (P x)}
    (l : list A) :
  List.filter (fun x => bool_decide (P x)) l = filter P l.
Proof.
  induction l as [|x l IH]; [done|]. simpl. rewrite IH.
  unfold filter at 2; simpl. rewrite (filter_cons P). fold (filter P l).
  by destruct (decide (P x)); [rewrite bool_decide_eq_true_2|rewrite bool_decide_eq_false_2].
Qed.

Lemma find_eq1 (s : Store) (c k v : string) :
  find s c [(k, CEq v)] = filter (field_is k v) (coll s c).
Proof.
  unfold find. rewrite <- list_filter_bool_decide.
  apply filter_ext. intros d. apply matches_eq1_decide.
Qed.

Lemma get_quiz_filter (module_slug : string) :
  (∀ s, get_quiz (Some s) module_slug
        = quiz_out <$> filter (field_is "module_slug" module_slug)
                              (coll s "quizquestion"))
  ∧ get_quiz None module_slug = []
  ∧ get_quiz seeded module_slug
    = if decide (module_slug = "dasar-dasar") then quiz_out <$> quizzes else [].
Proof.
  split_and!; [intros s; unfold get_quiz; by rewrite find_eq1 | done |].
  change seeded with (Some (insert_many "quizquestion" quizzes
    (insert_many "module" modules (insert_many "gesture" gestures ∅)))).
  unfold get_quiz. rewrite find_eq1, coll_insert_many_eq.
  rewrite !coll_insert_many_ne by done.
  change (coll ∅ "quizquestion") with (@nil Doc). rewrite app_nil_l.
  unfold quizzes at 1. rewrite filter_cons, filter_nil.
  case_decide as H1; case_decide as H2; try done.
  - vm_compute in H1. congruence.
  - destruct H1. subst. unfold field_is. vm_refl.
Qed.

Lemma decoded_quiz_out (d : Doc) : decoded_with quiz_fields d (quiz_out d).
Proof.
  split.
  - unfold quiz_out, dict. by rewrite dom_list_to_map_L.
  - intros k dflt Hin. unfold quiz_fields in Hin.
    repeat (apply elem_of_cons in Hin as [[= -> ->]|Hin]);
      [..|by apply elem_of_nil in Hin]; reflexivity.
Qed.

(** C8. [get_quiz] returns, in collection order, the projection of exactly
    the stored questions whose [module_slug] is the requested one, and
    nothing without a database: every returned question carries the
    requested [module_slug] and holds, field by field, what a stored
    question of that module holds.  On the freshly seeded store it returns
    exactly the one seeded question for [dasar-dasar], with its prompt, its
    three options and answer index 0, and nothing for any other slug. *)
Theorem get_quiz_exact (module_slug : string) :
  (∀ s, get_quiz (Some s) module_slug
        = quiz_out <$> filter (field_is "module_slug" module_slug)
                              (coll s "quizquestion"))
  ∧ (∀ s r, r ∈ get_quiz (Some s) module_slug ->
       r !! "module_slug" = Some (VStr module_slug)
       ∧ ∃ d, d ∈ coll s "quizquestion"
              ∧ field_is "module_slug" module_slug d
              ∧ decoded_with quiz_fields d r)
  ∧ get_quiz None module_slug = []
  ∧ get_quiz seeded module_slug
    = (if decide (module_slug = "dasar-dasar")
       then [dict [("module_slug", VStr "dasar-dasar");
                   ("prompt", VStr "Gestur mana yang berarti 'Terima Kasih'?");
                   ("media", VNone);
                   ("options", VList [VStr "Sentuh dagu lalu jauhkan tangan";
                                      VStr "Kepal tangan";
                                      VStr "Telapak ke atas"]);
                   ("answer_index", VInt 0)]]
       else []).
Proof.
  destruct (get_quiz_filter module_slug) as (Hfilter & Hnone & Hseed).
  split_and!; [done | | done |].
  - intros s r Hr. rewrite Hfilter in Hr.
    apply list_elem_of_fmap in Hr as (d & -> & [Hd Hin]%list_elem_of_filter).
    split; [|exists d; split_and!; [done | done | apply decoded_quiz_out]].
    unfold quiz_out, get. unfold field_is in Hd.
    change (dict _ !! "module_slug")
      with (Some (default VNone (d !! "module_slug"))). by rewrite Hd.
  - rewrite Hseed. case_decide; [vm_refl | done].
Qed.

(** ** Updates: [update_one] with [upsert=True] *)

Lemma update_first_None (f : Filter) (sets : list (string * Value))
    (docs : list Doc) :
  update_first f sets docs = None <-> ∀ d, d ∈ docs -> matches f d = false.
Proof.
  induction docs as [|d docs IH]; simpl.
  - split; [|done]. intros _ d Hd. by apply elem_of_nil in Hd.
  - destruct (matches f d) eqn:E.
    + split; [done|]. intros H. rewrite H in E; [done | left].
    + rewrite fmap_None, IH. split.
      * intros H y [->|Hy]%elem_of_cons; auto.
      * intros H y Hy. apply H. by right.
Qed.

Lemma update_first_Some (f : Filter) (sets : list (string * Value))
    (docs docs' : list Doc) :
  update_first f sets docs = Some docs' <->
  ∃ pre d post, docs = pre ++ d :: post ∧ matches f d = true
                ∧ (∀ y, y ∈ pre -> matches f y = false)
                ∧ docs' = pre ++ apply_set sets d :: post.
Proof.
  revert docs'. induction docs as [|d docs IH]; intros docs'; simpl.
  - split; [done|]. intros (pre & ? & ? & H & _). by destruct pre.
  - destruct (matches f d) eqn:E.
    + split.
      * intros [= <-]. exists [], d, docs. split_and!; [done..| |done].
        intros y Hy. by apply elem_of_nil in Hy.
      * intros (pre & x & post & H & Hx & Hpre & ->).
        destruct pre as [|y pre]; injection H as -> ->; [done|].
        rewrite Hpre in E; [done | left].
    + rewrite fmap_Some. split.
      * intros (l & (pre & x & post & -> & Hx & Hpre & ->)%IH & ->).
        exists (d :: pre), x, post. split_and!; [done..| |done].
        intros y [->|Hy]%elem_of_cons; auto.
      * intros (pre & x & post & H & Hx & Hpre & ->).
        destruct pre as [|y pre]; injection H as -> ->; [congruence|].
        eexists. split; [|done]. apply IH. exists pre, x, post.
        split_and!; [done..| |done]. intros z Hz. apply Hpre. by right.
Qed.

Lemma update_one_upsert_lookup_ne (c c' : string) (f : Filter)
    (sets : list (string * Value)) (s : Store) :
  c ≠ c' -> update_one_upsert c f sets s !! c' = s !! c'.
Proof.
  intros Hne. unfold update_one_upsert.
  destruct (update_first f sets (coll s c)).
  - by rewrite lookup_insert_ne.
  - by apply lookup_insert_many_ne.
Qed.

Lemma create_document_lookup_ne (c c' : string) (d : Doc) (s : Store) :
  c ≠ c' -> create_document c d s !! c' = s !! c'.
Proof. apply lookup_insert_many_ne. Qed.

Lemma create_document_coll (c : string) (d : Doc) (s : Store) :
  coll (create_document c d s) c = coll s c ++ [d].
Proof. apply coll_insert_many_eq. Qed.

Lemma coll_lookup_eq (s s' : Store) (c : string) :
  s' !! c = s !! c -> coll s' c = coll s c.
Proof. unfold coll. by intros ->. Qed.

(** ** Progress: [set_progress] and [get_progress] *)

Lemma progress_key_matches (u m : string) (d : Doc) :
  matches [("user_email", CEq u); ("module_slug", CEq m)] d = true
  <-> progress_key u m d.
Proof. apply matches_eq2. Qed.

Lemma progress_key_not_matches (u m : string) (d : Doc) :
  matches [("user_email", CEq u); ("module_slug", CEq m)] d = false
  <-> ¬ progress_key u m d.
Proof. rewrite <- progress_key_matches. by destruct (matches _ d). Qed.

Lemma int64_spec (n : Z) : int64 n = true <-> INT64_MIN <= n <= INT64_MAX.
Proof. unfold int64. rewrite andb_true_iff, !Z.leb_le. done. Qed.

Lemma forallb_int64 (L : list Z) : forallb int64 L = true <-> fits_int64 L.
Proof.
  unfold fits_int64. induction L as [|n L IH]; simpl.
  - split; [constructor | done].
  - rewrite andb_true_iff, int64_spec, IH, Forall_cons. done.
Qed.

Lemma bson_encodable_ints (L : list Z) :
  bson_encodable (ints L) = forallb int64 L.
Proof.
  unfold ints. cbn [bson_encodable].
  induction L as [|n L IH]; [done|]. cbn [fmap list_fmap forallb].
  by rewrite <- IH.
Qed.

(** [set_progress] fails, and writes nothing, when an element of the
    submitted list does not fit in 64 bits. *)
Lemma set_progress_overflow (s : Store) (payload : ProgressIn.t) :
  ¬ fits_int64 (ProgressIn.completed_lessons payload) ->
  set_progress (Some s) payload = (Some s, Raised "OverflowError").
Proof.
  intros Hfit. unfold set_progress, update_one. cbn [forallb snd].
  rewrite bson_encodable_ints.
  destruct (forallb int64 _) eqn:E; [by apply forallb_int64 in E|done].
Qed.

Lemma set_progress_fits (s : Store) (payload : ProgressIn.t) :
  fits_int64 (ProgressIn.completed_lessons payload) ->
  set_progress (Some s) payload
  = (Some (update_one_upsert "progress"
             [("user_email", CEq (ProgressIn.user_email payload));
              ("module_slug", CEq (ProgressIn.module_slug payload))]
             [("completed_lessons", ints (ProgressIn.completed_lessons payload))]
             s),
     Ok (dict [("ok", VBool true)])).
Proof.
  intros Hfit. unfold set_progress, update_one. cbn [forallb snd].
  rewrite bson_encodable_ints. apply forallb_int64 in Hfit. by rewrite Hfit.
Qed.

Lemma fits_int64_dec (L : list Z) : fits_int64 L ∨ ¬ fits_int64 L.
Proof.
  destruct (forallb int64 L) eqn:E.
  - left. by apply forallb_int64.
  - right. intros H%forallb_int64. congruence.
Qed.

(** Whatever the payload, [set_progress] keeps the other collections. *)
Lemma set_progress_frame_lookup (s : Store) (payload : ProgressIn.t) :
  ∃ s' r, set_progress (Some s) payload = (Some s', r)
          ∧ ∀ c, c ≠ "progress" -> s' !! c = s !! c.
Proof.
  destruct (fits_int64_dec (ProgressIn.completed_lessons payload)) as [H|H].
  - do 2 eexists. split; [by apply set_progress_fits|].
    intros c Hc. by apply update_one_upsert_lookup_ne.
  - do 2 eexists. split; [by apply set_progress_overflow|]. done.
Qed.

(** The two outcomes of a [set_progress] that the driver accepts: the first
    record of the pair gets the new list in place, or, when the pair has no
    record, one is appended. *)
Lemma set_progress_cases (s : Store) (payload : ProgressIn.t) :
  fits_int64 (ProgressIn.completed_lessons payload) ->
  let u := ProgressIn.user_email payload in
  let m := ProgressIn.module_slug payload in
  let L := ProgressIn.completed_lessons payload in
  ∃ s', set_progress (Some s) payload
        = (Some s', Ok (dict [("ok", VBool true)]))
    ∧ (∀ c, c ≠ "progress" -> s' !! c = s !! c)
    ∧ ((∃ pre d post,
          coll s "progress" = pre ++ d :: post
          ∧ progress_key u m d
          ∧ (∀ y, y ∈ pre -> ¬ progress_key u m y)
          ∧ coll s' "progress"
            = pre ++ <["completed_lessons" := ints L]> d :: post)
       ∨ ((∀ d, d ∈ coll s "progress" -> ¬ progress_key u m d)
          ∧ coll s' "progress" = coll s "progress" ++ [new_progress payload])).
Proof.
  intros Hfit u m L. eexists. split; [by apply set_progress_fits|]. split.
  - intros c Hc. by apply update_one_upsert_lookup_ne.
  - unfold update_one_upsert. fold u m L.
    destruct (update_first _ _ (coll s "progress")) as [docs'|] eqn:E.
    + left. apply update_first_Some in E as (pre & d & post & Hc & Hd & Hpre & ->).
      exists pre, d, post. split_and!; [done | by apply progress_key_matches | |].
      * intros y Hy. apply progress_key_not_matches. auto.
      * unfold coll. by rewrite lookup_insert_eq.
    + right. rewrite update_first_None in E. split.
      * intros d Hd. apply progress_key_not_matches. auto.
      * unfold insert_one. rewrite coll_insert_many_eq. reflexivity.
Qed.

(** C10. [set_progress] touches one field of one record.  On an available
    store it answers [{ok: true}], unless an element of the list does not
    fit in 64 bits: then it fails and writes nothing.  Either way every
    other collection is as before; every progress record stays at its
    position with all fields other than [completed_lessons] as they were
    ([updated_at] included), and a record of another pair is unchanged
    altogether.  At most one record is added, only when the pair had none,
    and that record carries no [updated_at]. *)
Theorem set_progress_frame (s : Store) (payload : ProgressIn.t) :
  ∃ s' r, set_progress (Some s) payload = (Some s', r)
    ∧ (fits_int64 (ProgressIn.completed_lessons payload) ->
         r = Ok (dict [("ok", VBool true)]))
    ∧ (¬ fits_int64 (ProgressIn.completed_lessons payload) ->
         r = Raised "OverflowError" ∧ s' = s)
    ∧ (∀ c, c ≠ "progress" -> s' !! c = s !! c)
    ∧ (∀ i d, coll s "progress" !! i = Some d ->
         ∃ d', coll s' "progress" !! i = Some d'
               ∧ (∀ k, k ≠ "completed_lessons" -> d' !! k = d !! k)
               ∧ (¬ progress_key (ProgressIn.user_email payload)
                      (ProgressIn.module_slug payload) d -> d' = d))
    ∧ (∀ i d', coll s' "progress" !! i = Some d' ->
         coll s "progress" !! i = None ->
         i = length (coll s "progress")
         ∧ d' = new_progress payload
         ∧ d' !! "updated_at" = None
         ∧ ∀ d, d ∈ coll s "progress" ->
             ¬ progress_key (ProgressIn.user_email payload)
                 (ProgressIn.module_slug payload) d).
Proof.
  destruct (fits_int64_dec (ProgressIn.completed_lessons payload))
    as [Hfit|Hfit]; cycle 1.
  { exists s, (Raised "OverflowError").
    split_and!; [by apply set_progress_overflow | done | done | done | |].
    - intros i d Hi. by exists d.
    - intros i d' Hi Hnone. congruence. }
  destruct (set_progress_cases s payload Hfit) as (s' & Hr & Hother & Hcases).
  exists s', (Ok (dict [("ok", VBool true)])).
  split_and!; [done | done | done | done | |].
  - intros i d Hi.
    destruct Hcases as [(pre & x & post & Hc & Hx & Hpre & ->)|[Hno ->]].
    + rewrite Hc in Hi. destruct (decide (i = length pre)) as [->|Hne].
      * rewrite list_lookup_middle in Hi by done. injection Hi as ->.
        eexists. split; [by apply list_lookup_middle|]. split; [|done].
        intros k Hk. by rewrite lookup_insert_ne.
      * exists d. split; [|done].
        destruct (decide (i < length pre)%nat).
        -- rewrite lookup_app_l in Hi |- * by done. done.
        -- rewrite lookup_app_r in Hi |- * by lia.
           destruct (i - length pre)%nat as [|j] eqn:Ej; [lia | done].
    + exists d. split; [|done]. by apply lookup_app_l_Some.
  - intros i d' Hi Hnone.
    destruct Hcases as [(pre & x & post & Hc & Hx & Hpre & Hc')|[Hno Hc']];
      rewrite Hc' in Hi.
    + apply lookup_ge_None in Hnone. apply lookup_lt_Some in Hi.
      rewrite Hc in Hnone. rewrite !length_app in *. simpl in *. lia.
    + apply lookup_ge_None in Hnone.
      rewrite lookup_app_r in Hi by done.
      destruct (i - length (coll s "progress"))%nat as [|j] eqn:Ej; [|done].
      injection Hi as <-. split_and!; [lia | done | done | done].
Qed.

Lemma progress_key_insert (u m : string) (v : Value) (d : Doc) :
  progress_key u m (<["completed_lessons" := v]> d) <-> progress_key u m d.
Proof. unfold progress_key, field_is. by rewrite !lookup_insert_ne. Qed.

Lemma progress_key_new (payload : ProgressIn.t) :
  progress_key (ProgressIn.user_email payload) (ProgressIn.module_slug payload)
    (new_progress payload).
Proof. done. Qed.

(** After a [set_progress] that the driver accepts, the first record of
    the pair holds the new list. *)
Lemma set_progress_first (s : Store) (payload : ProgressIn.t) :
  fits_int64 (ProgressIn.completed_lessons payload) ->
  let u := ProgressIn.user_email payload in
  let m := ProgressIn.module_slug payload in
  ∃ s' d, set_progress (Some s) payload
          = (Some s', Ok (dict [("ok", VBool true)]))
    ∧ find_one s' "progress" (progress_filter u m) = Some d
    ∧ d !! "completed_lessons"
      = Some (ints (ProgressIn.completed_lessons payload)).
Proof.
  intros Hfit u m.
  destruct (set_progress_cases s payload Hfit) as (s' & Hr & _ & Hcases).
  fold u m in Hcases.
  destruct Hcases as [(pre & x & post & Hc & Hx & Hpre & Hc')|[Hno Hc']].
  - exists s', (<["completed_lessons" :=
                   ints (ProgressIn.completed_lessons payload)]> x).
    split_and!; [done | | by rewrite lookup_insert_eq].
    apply find_one_first. exists pre, post. split_and!; [done | |].
    + apply progress_key_matches. by apply progress_key_insert.
    + intros y Hy. apply progress_key_not_matches. auto.
  - exists s', (new_progress payload). split_and!; [done | | done].
    apply find_one_first. exists (coll s "progress"), [].
    split_and!; [done | by apply progress_key_matches, progress_key_new |].
    intros y Hy. apply progress_key_not_matches. auto.
Qed.

Lemma get_progress_find (s : Store) (u m : string) (d : Doc) (v : Value) :
  find_one s "progress" (progress_filter u m) = Some d ->
  d !! "completed_lessons" = Some v ->
  get_progress (Some s) u m = dict [("completed_lessons", v)].
Proof.
  intros Hf Hv. unfold get_progress. fold (progress_filter u m).
  rewrite Hf. rewrite truthy_doc_Some by by eapply lookup_Some_nonempty.
  unfold get_or. by rewrite Hv.
Qed.

Lemma get_progress_absent (s : Store) (u m : string) :
  (∀ d, d ∈ coll s "progress" -> ¬ progress_key u m d) ->
  get_progress (Some s) u m = dict [("completed_lessons", VList [])].
Proof.
  intros Hno. unfold get_progress.
  replace (find_one s "progress" _) with (@None Doc); [done|].
  symmetry. apply find_one_None. intros d Hd.
  apply progress_key_not_matches. auto.
Qed.

(** C3, as amended.  [set_progress] is a replacing upsert for every list
    of integers that fit in 64 bits.  On an available store it answers
    [{ok: true}]; afterwards the record that a lookup of the pair finds
    stores exactly the submitted list, and [get_progress] returns exactly
    that list, whatever was stored before (so [[0,1]] followed by [[2]]
    leaves [[2]]).  When the pair had no record, one record made of the
    pair and the list is appended; when it had at most one, every record of
    the pair stores the submitted list afterwards. *)
Theorem set_progress_replaces (s : Store) (payload : ProgressIn.t) :
  fits_int64 (ProgressIn.completed_lessons payload) ->
  let u := ProgressIn.user_email payload in
  let m := ProgressIn.module_slug payload in
  let L := ProgressIn.completed_lessons payload in
  ∃ s', set_progress (Some s) payload
        = (Some s', Ok (dict [("ok", VBool true)]))
    ∧ get_progress (Some s') u m = dict [("completed_lessons", ints L)]
    ∧ (∃ d, find_one s' "progress" (progress_filter u m) = Some d
            ∧ d !! "completed_lessons" = Some (ints L))
    ∧ ((∀ d, d ∈ coll s "progress" -> ¬ progress_key u m d) ->
         coll s' "progress" = coll s "progress" ++ [new_progress payload])
    ∧ (at_most_one (progress_key u m) (coll s "progress") ->
         at_most_one (progress_key u m) (coll s' "progress")
         ∧ ∀ d, d ∈ coll s' "progress" -> progress_key u m d ->
             d !! "completed_lessons" = Some (ints L))
    ∧ (∀ L0 L1,
         fits_int64 L1 ->
         get_progress
           (set_progress
              (set_progress (Some s)
                 {| ProgressIn.user_email := u; ProgressIn.module_slug := m;
                    ProgressIn.completed_lessons := L0 |}).1
              {| ProgressIn.user_email := u; ProgressIn.module_slug := m;
                 ProgressIn.completed_lessons := L1 |}).1 u m
         = dict [("completed_lessons", ints L1)]).
Proof.
  intros Hfit u m L.
  destruct (set_progress_first s payload Hfit) as (s' & d & Hr & Hf & Hd).
  exists s'. split_and!; [done | by eapply get_progress_find | by exists d | | |].
  - intros Hno.
    destruct (set_progress_cases s payload Hfit) as (s2 & Hr2 & _ & Hcases).
    rewrite Hr in Hr2. injection Hr2 as <-.
    destruct Hcases as [(pre & x & post & Hc & Hx & _)|[_ Hc']]; [|done].
    destruct (Hno x); [|done]. rewrite Hc. apply elem_of_app. right. left.
  - intros Huniq.
    destruct (set_progress_cases s payload Hfit) as (s2 & Hr2 & _ & Hcases).
    rewrite Hr in Hr2. injection Hr2 as <-. fold u m L in Hcases.
    destruct Hcases as [(pre & x & post & Hc & Hx & Hpre & Hc')|[Hno Hc']];
      rewrite Hc'.
    + assert (∀ y, y ∈ post -> ¬ progress_key u m y) as Hpost.
      { intros y [k Hk]%list_elem_of_lookup Hy.
        assert (length pre = length pre + S k)%nat as Habs; [|lia].
        apply (Huniq _ _ x y); [| |done..]; rewrite Hc.
        - by apply list_lookup_middle.
        - rewrite lookup_app_r by lia.
          replace (length pre + S k - length pre)%nat with (S k) by lia. done. }
      assert (∀ i y, (pre ++ <["completed_lessons" := ints L]> x :: post) !! i
                     = Some y -> progress_key u m y ->
                     i = length pre ∧ y = <["completed_lessons" := ints L]> x)
        as Honly.
      { intros i y Hi Hy. destruct (decide (i < length pre)%nat).
        - rewrite lookup_app_l in Hi by done.
          destruct (Hpre y); [by eapply list_elem_of_lookup_2 | done].
        - rewrite lookup_app_r in Hi by lia.
          destruct (i - length pre)%nat as [|k] eqn:Ek.
          + injection Hi as <-. split; [lia | done].
          + destruct (Hpost y); [by eapply list_elem_of_lookup_2 | done]. }
      split.
      * intros i j a b Hi Hj Ha Hb.
        destruct (Honly _ _ Hi Ha) as [-> _].
        by destruct (Honly _ _ Hj Hb) as [-> _].
      * intros y [i Hi]%list_elem_of_lookup Hy.
        destruct (Honly _ _ Hi Hy) as [_ ->]. by rewrite lookup_insert_eq.
    + assert (∀ i y, (coll s "progress" ++ [new_progress payload]) !! i
                     = Some y -> progress_key u m y ->
                     i = length (coll s "progress") ∧ y = new_progress payload)
        as Honly.
      { intros i y Hi Hy.
        destruct (decide (i < length (coll s "progress"))%nat).
        - rewrite lookup_app_l in Hi by done.
          destruct (Hno y); [by eapply list_elem_of_lookup_2 | done].
        - rewrite lookup_app_r in Hi by lia.
          destruct (i - length (coll s "progress"))%nat as [|k] eqn:Ek;
            [|done].
          injection Hi as <-. split; [lia | done]. }
      split.
      * intros i j a b Hi Hj Ha Hb.
        destruct (Honly _ _ Hi Ha) as [-> _].
        by destruct (Honly _ _ Hj Hb) as [-> _].
      * intros y [i Hi]%list_elem_of_lookup Hy.
        by destruct (Honly _ _ Hi Hy) as [_ ->].
  - intros L0 L1 Hfit1.
    destruct (set_progress_frame_lookup s
      {| ProgressIn.user_email := u; ProgressIn.module_slug := m;
         ProgressIn.completed_lessons := L0 |}) as (s1 & r1 & Hr1 & _).
    rewrite Hr1. cbn [fst].
    destruct (set_progress_first s1
      {| ProgressIn.user_email := u; ProgressIn.module_slug := m;
         ProgressIn.completed_lessons := L1 |} Hfit1)
      as (s2 & d2 & Hr2 & Hf2 & Hd2).
    rewrite Hr2. cbn [fst]. by eapply get_progress_find.
Qed.

(** Property 3 of the spec on the empty store: [[0,1]] then [[2]] for the
    same pair leaves one record, holding [[2]]. *)
Lemma set_progress_replaces_witness :
  let p0 := {| ProgressIn.user_email := "a@b.c";
               ProgressIn.module_slug := "dasar-dasar";
               ProgressIn.completed_lessons := [0; 1] |} in
  let p1 := {| ProgressIn.user_email := "a@b.c";
               ProgressIn.module_slug := "dasar-dasar";
               ProgressIn.completed_lessons := [2] |} in
  get_progress (set_progress (set_progress (Some ∅) p0).1 p1).1
    "a@b.c" "dasar-dasar" = dict [("completed_lessons", ints [2])]
  ∧ (set_progress (set_progress (Some ∅) p0).1 p1).1
    = Some {["progress" := [new_progress p1]]}.
Proof.
  intros p0 p1.
  assert (fits_int64 [2]) as Hfit by (apply forallb_int64; reflexivity).
  destruct (set_progress_replaces ∅ p1 Hfit) as (s' & _ & _ & _ & _ & _ & H).
  split; [apply (H [0; 1] [2] Hfit)|]. vm_refl.
Defined.

(** C3 as the spec words it, for every list, fails on the code: an integer
    beyond 64 bits makes the driver raise before anything is written.  On
    the empty store nothing is stored; after [[0,1]] was stored, it stays. *)
Lemma set_progress_rejects_wide_integers :
  let p := {| ProgressIn.user_email := "a@b.c";
              ProgressIn.module_slug := "dasar-dasar";
              ProgressIn.completed_lessons := [2 ^ 63] |} in
  let p0 := {| ProgressIn.user_email := "a@b.c";
               ProgressIn.module_slug := "dasar-dasar";
               ProgressIn.completed_lessons := [0; 1] |} in
  set_progress (Some ∅) p = (Some ∅, Raised "OverflowError")
  ∧ get_progress (set_progress (Some ∅) p).1 "a@b.c" "dasar-dasar"
    = dict [("completed_lessons", VList [])]
  ∧ get_progress (set_progress (set_progress (Some ∅) p0).1 p).1
      "a@b.c" "dasar-dasar"
    = dict [("completed_lessons", ints [0; 1])].
Proof. split_and!; vm_refl. Qed.

(** ** The seeded store *)

Lemma seeded_eq : seeded = Some seeded_store.
Proof. reflexivity. Qed.

Lemma seeded_coll :
  coll seeded_store "gesture" = gestures
  ∧ coll seeded_store "module" = modules
  ∧ coll seeded_store "quizquestion" = quizzes.
Proof.
  unfold seeded_store. split_and!.
  - rewrite !coll_insert_many_ne by done. by rewrite coll_insert_many_eq.
  - rewrite coll_insert_many_ne by done. rewrite coll_insert_many_eq.
    by rewrite coll_insert_many_ne.
  - rewrite coll_insert_many_eq. by rewrite !coll_insert_many_ne.
Qed.

Lemma seeded_no_zzz : no_slug seeded_store "gesture" "zzz".
Proof.
  unfold no_slug. destruct seeded_coll as (-> & _). apply Forall_forall.
  repeat constructor; intros H; vm_compute in H; discriminate.
Qed.

Lemma seeded_first_module :
  ∃ m, m ∈ modules ∧ first_with_slug seeded_store "module" "ekspresi-emosi" m.
Proof.
  destruct seeded_coll as (_ & Hm & _). unfold first_with_slug. rewrite Hm.
  eexists. split; [right; left|]. eexists [_], []. split_and!; [done | vm_refl |].
  apply Forall_forall.
  repeat constructor; intros H; vm_compute in H; discriminate.
Qed.

(** Property 6 of the spec, through the theorem: on the seeded store the slug
    [zzz] is a 404, and [get_module] finds the second seeded module. *)
Lemma get_by_slug_not_found_witness :
  is_not_found (get_gesture seeded "zzz")
  ∧ ∃ m, m ∈ modules ∧ get_module seeded "ekspresi-emosi" = Ok (module_detail m)
         ∧ module_detail m !! "slug" = Some (VStr "ekspresi-emosi")
         ∧ module_detail m !! "title" = Some (VStr "Ekspresi Emosi").
Proof.
  destruct (get_by_slug_not_found seeded "zzz") as [(Hnf & _) _].
  destruct (get_by_slug_not_found seeded "ekspresi-emosi")
    as (_ & (_ & Hok & _) & _ & Hpin).
  split.
  - apply Hnf. right. exists seeded_store. split; [reflexivity|].
    exact seeded_no_zzz.
  - destruct seeded_first_module as (m & Hin & Hfirst).
    pose proof (Hok seeded_store m eq_refl Hfirst) as Hr.
    exists m. split_and!; [exact Hin | exact Hr | exact (proj1 (Hpin _ Hr)) |].
    revert Hin. unfold modules.
    intros [->|[->|Hin%elem_of_nil]%elem_of_cons]%elem_of_cons;
      [|vm_refl|done].
    destruct Hfirst as (pre & post & _ & Hs & _). vm_compute in Hs.
    discriminate Hs.
Defined.

(** ** What each writer leaves alone *)

Lemma add_favorite_frame (s : Store) (payload : FavoriteIn.t) :
  ∃ s', add_favorite (Some s) payload = (Some s', dict [("ok", VBool true)])
        ∧ ∀ c, c ≠ "favorite" -> s' !! c = s !! c.
Proof.
  unfold add_favorite. destruct (truthy_doc _).
  - by exists s.
  - eexists. split; [done|]. intros c Hc. by apply create_document_lookup_ne.
Qed.

Lemma get_profile_frame (s : Store) (email : string) :
  ∃ s' r, get_profile (Some s) email = (Some s', r)
          ∧ ∀ c, c ≠ "user" -> s' !! c = s !! c.
Proof.
  unfold get_profile. destruct (negb (truthy_doc _)).
  - do 2 eexists. split; [done|]. intros c Hc.
    by apply create_document_lookup_ne.
  - do 2 eexists. split; [reflexivity | done].
Qed.

(** Every request but the seed step keeps the three seeded collections. *)
Lemma step_seeded_collections (db : option Store) (r : Request) (s' : Store)
    (c : string) :
  step db r = Some s' -> r ≠ ReqSeed -> c ∈ seeded_collections.*1 ->
  ∃ s, db = Some s ∧ s' !! c = s !! c.
Proof.
  intros Hstep Hr Hc.
  assert (c ≠ "favorite" ∧ c ≠ "user" ∧ c ≠ "progress") as (H1 & H2 & H3).
  { simpl in Hc.
    repeat (apply elem_of_cons in Hc as [->|Hc]);
      [..|by apply elem_of_nil in Hc]; done. }
  destruct db as [s|]; [|by destruct r as [| | | | | | |p|e| |p]].
  exists s. split; [done|].
  destruct r as [| | | | | | |p|e| |p]; unfold step in Hstep;
    try done; try by injection Hstep as <-.
  - destruct (add_favorite_frame s p) as (s2 & Heq & Hf).
    rewrite Heq in Hstep. injection Hstep as <-. auto.
  - destruct (get_profile_frame s e) as (s2 & r & Heq & Hf).
    rewrite Heq in Hstep. injection Hstep as <-. auto.
  - destruct (set_progress_frame_lookup s p) as (s2 & r & Heq & Hf).
    rewrite Heq in Hstep. injection Hstep as <-. auto.
Qed.

(** ** Quiz questions stay well formed *)

Lemma valid_question_seed : Forall valid_question quizzes.
Proof.
  repeat constructor.
  exists (VStr <$> ["Sentuh dagu lalu jauhkan tangan"; "Kepal tangan";
                    "Telapak ke atas"]), 0.
  split_and!; [vm_refl | vm_refl | done | lia | simpl; lia].
Qed.

Lemma valid_question_out (q : Doc) : valid_question q -> valid_question (quiz_out q).
Proof.
  intros (opts & i & Ho & Hi & Hne & Hlt). exists opts, i.
  unfold quiz_out, get_or. rewrite Ho, Hi. done.
Qed.

(** Through the API the [quizquestion] collection is empty or the seed batch. *)
Lemma reachable_quizquestion (db : option Store) :
  reachable db ->
  ∀ s, db = Some s ->
       coll s "quizquestion" = [] ∨ coll s "quizquestion" = quizzes.
Proof.
  induction 1 as [|db r Hreach IH]; intros s' Hs'.
  - injection Hs' as <-. by left.
  - assert (r = ReqSeed ∨ r ≠ ReqSeed) as [->|Hr] by (destruct r; auto).
    + destruct db as [s|]; [|done].
      destruct (ensure_seed_data_lookup s) as (s2 & Heq & Hl & _).
      unfold step in Hs'. rewrite Heq in Hs'. injection Hs' as ->.
      unfold coll at 1 2.
      rewrite (Hl "quizquestion" quizzes) by (right; right; left).
      case_decide as Hv; [by right|]. by apply IH.
    + destruct (step_seeded_collections db r s' "quizquestion" Hs' Hr)
        as (s & -> & Hl); [set_solver|].
      rewrite (coll_lookup_eq _ _ _ Hl). by apply IH.
Qed.

(** C9. In every state reachable through the API from an empty store the
    [quizquestion] collection is empty or exactly the seed batch; each of
    its documents has a non-empty [options] list and an [answer_index] that
    is a valid 0-based index into it; and so has every question that
    [get_quiz] returns. *)
Theorem quiz_questions_valid (db : option Store) :
  reachable db ->
  (∀ s, db = Some s ->
     (coll s "quizquestion" = [] ∨ coll s "quizquestion" = quizzes)
     ∧ ∀ q, q ∈ coll s "quizquestion" -> valid_question q)
  ∧ (∀ module_slug q, q ∈ get_quiz db module_slug -> valid_question q).
Proof.
  intros Hreach.
  assert (∀ s, db = Some s ->
            ∀ q, q ∈ coll s "quizquestion" -> valid_question q) as Hvalid.
  { intros s Hs q Hq.
    destruct (reachable_quizquestion db Hreach s Hs) as [H|H];
      rewrite H in Hq; [by apply elem_of_nil in Hq|].
    by eapply (proj1 (Forall_forall _ _) valid_question_seed). }
  split.
  - intros s Hs. split; [by eapply reachable_quizquestion | by eapply Hvalid].
  - intros m q Hq. destruct db as [s|]; [|by apply elem_of_nil in Hq].
    unfold get_quiz in Hq.
    apply list_elem_of_fmap in Hq as (d & -> & [Hd _]%elem_of_find).
    apply valid_question_out. by eapply Hvalid.
Qed.

(** The store after start-up, one profile read, one favorite and one
    progress submission is reachable; its quiz for [dasar-dasar] is valid. *)
Lemma quiz_questions_valid_witness :
  let db :=
    step (step (step (step (Some ∅) ReqSeed) (ReqGetProfile "a@b.c"))
            (ReqAddFavorite {| FavoriteIn.user_email := "a@b.c";
                               FavoriteIn.gesture_slug := "a" |}))
         (ReqSetProgress {| ProgressIn.user_email := "a@b.c";
                            ProgressIn.module_slug := "dasar-dasar";
                            ProgressIn.completed_lessons := [0] |}) in
  reachable db ∧ Forall valid_question (get_quiz db "dasar-dasar").
Proof.
  intros db.
  assert (reachable db) as Hreach
    by (unfold db; repeat apply reachable_step; apply reachable_empty).
  split; [exact Hreach|]. apply Forall_forall.
  exact (proj2 (quiz_questions_valid db Hreach) "dasar-dasar").
Defined.

(** ** Favorites: [add_favorite] *)

Lemma favorite_key_matches (u g : string) (d : Doc) :
  matches (favorite_filter u g) d = true <-> favorite_key u g d.
Proof. apply matches_eq2. Qed.

Lemma favorite_key_dump (u g : string) (payload : FavoriteIn.t) :
  favorite_key u g (FavoriteIn.model_dump payload)
  <-> u = FavoriteIn.user_email payload ∧ g = FavoriteIn.gesture_slug payload.
Proof.
  unfold favorite_key, field_is, FavoriteIn.model_dump.
  change (dict _ !! "user_email")
    with (Some (VStr (FavoriteIn.user_email payload))).
  change (dict _ !! "gesture_slug")
    with (Some (VStr (FavoriteIn.gesture_slug payload))).
  split; [intros [[= ->] [= ->]] | intros [-> ->]]; done.
Qed.

Lemma find_eq_filter (s : Store) (u g : string) :
  find s "favorite" (favorite_filter u g)
  = filter (favorite_key u g) (coll s "favorite").
Proof.
  unfold find. rewrite <- list_filter_bool_decide. apply filter_ext.
  intros d. destruct (matches _ d) eqn:E.
  - apply favorite_key_matches in E. by rewrite bool_decide_eq_true_2.
  - rewrite bool_decide_eq_false_2; [done|].
    intros H%favorite_key_matches. congruence.
Qed.

(** The two outcomes of [add_favorite] on an available store. *)
Lemma add_favorite_cases (s : Store) (payload : FavoriteIn.t) :
  let u := FavoriteIn.user_email payload in
  let g := FavoriteIn.gesture_slug payload in
  ((1 <= count_favorites s u g)%nat
   ∧ add_favorite (Some s) payload = (Some s, dict [("ok", VBool true)]))
  ∨ (count_favorites s u g = 0%nat
     ∧ add_favorite (Some s) payload
       = (Some (insert_one "favorite" (FavoriteIn.model_dump payload) s),
          dict [("ok", VBool true)])).
Proof.
  intros u g. unfold add_favorite, count_favorites. fold u g.
  fold (favorite_filter u g).
  destruct (find_one s "favorite" (favorite_filter u g)) as [d|] eqn:E.
  - left. rewrite (truthy_find_one _ _ _ _ _ _ E).
    unfold find_one in E. rewrite find_eq_filter in E.
    destruct (filter _ _); [done|]. simpl. split; [lia | done].
  - right. unfold find_one in E. rewrite find_eq_filter in E.
    destruct (filter _ _); [done | by simplify_eq/=].
Qed.

Lemma count_favorites_insert (s : Store) (payload : FavoriteIn.t) (u g : string) :
  count_favorites (insert_one "favorite" (FavoriteIn.model_dump payload) s) u g
  = (count_favorites s u g
     + if decide (u = FavoriteIn.user_email payload
                  ∧ g = FavoriteIn.gesture_slug payload) then 1 else 0)%nat.
Proof.
  unfold count_favorites, insert_one. rewrite coll_insert_many_eq.
  rewrite filter_app, length_app. f_equal.
  rewrite filter_cons, filter_nil.
  case_decide as H1; case_decide as H2; try done;
    apply favorite_key_dump in H1 || (destruct H1; apply favorite_key_dump);
    done.
Qed.

(** Every request other than [add_favorite] keeps the favorites. *)
Lemma step_favorite (db : option Store) (r : Request) (s' : Store) :
  step db r = Some s' -> (∀ p, r ≠ ReqAddFavorite p) ->
  ∃ s, db = Some s ∧ s' !! "favorite" = s !! "favorite".
Proof.
  intros Hstep Hr.
  destruct db as [s|]; [|by destruct r as [| | | | | | |p|e| |p]].
  exists s. split; [done|].
  destruct r as [| | | | | | |p|e| |p]; unfold step in Hstep;
    try done; try by injection Hstep as <-.
  - destruct (ensure_seed_data_lookup s) as (s2 & Heq & _ & Hf).
    rewrite Heq in Hstep. injection Hstep as <-. apply Hf. simpl.
    intros Hin. repeat (apply elem_of_cons in Hin as [?|Hin]); try done.
    by apply elem_of_nil in Hin.
  - by destruct (Hr p).
  - destruct (get_profile_frame s e) as (s2 & r & Heq & Hf).
    rewrite Heq in Hstep. injection Hstep as <-. auto.
  - destruct (set_progress_frame_lookup s p) as (s2 & r & Heq & Hf).
    rewrite Heq in Hstep. injection Hstep as <-. auto.
Qed.

(** Through the API a pair is stored at most once. *)
Lemma reachable_favorite_unique (db : option Store) :
  reachable db ->
  ∀ s u g, db = Some s -> (count_favorites s u g <= 1)%nat.
Proof.
  induction 1 as [|db r Hreach IH]; intros s' u g Hs'.
  - injection Hs' as <-. unfold count_favorites, coll.
    rewrite lookup_empty. simpl. lia.
  - assert ((∃ p, r = ReqAddFavorite p) ∨ ∀ p, r ≠ ReqAddFavorite p)
      as [[p ->]|Hr] by (destruct r; eauto).
    + destruct db as [s|]; [|done]. unfold step in Hs'.
      destruct (add_favorite_cases s p) as [[_ Heq]|[H0 Heq]];
        rewrite Heq in Hs'; injection Hs' as <-; [by apply IH|].
      rewrite count_favorites_insert. case_decide as Hd.
      * destruct Hd as [-> ->]. rewrite H0. done.
      * specialize (IH s u g eq_refl). lia.
    + destruct (step_favorite db r s' Hs' Hr) as (s & -> & Hl).
      unfold count_favorites. rewrite (coll_lookup_eq _ _ _ Hl).
      by apply IH.
Qed.

(** C2. [add_favorite] is idempotent.  On an available store two calls in
    sequence with the same pair both answer [{ok: true}]; the second call
    leaves the store exactly as the first left it (it inserts nothing); the
    number of stored documents of the pair afterwards is one when the pair
    was stored at most once before, which holds in every state reachable
    through the API from an empty store. *)
Theorem add_favorite_idempotent (s : Store) (payload : FavoriteIn.t) :
  let u := FavoriteIn.user_email payload in
  let g := FavoriteIn.gesture_slug payload in
  ∃ s1, add_favorite (Some s) payload = (Some s1, dict [("ok", VBool true)])
    ∧ add_favorite (Some s1) payload = (Some s1, dict [("ok", VBool true)])
    ∧ count_favorites s1 u g = Nat.max 1 (count_favorites s u g)
    ∧ ((count_favorites s u g <= 1)%nat -> count_favorites s1 u g = 1%nat)
    ∧ (reachable (Some s) -> count_favorites s1 u g = 1%nat).
Proof.
  intros u g.
  assert (∃ s1, add_favorite (Some s) payload
                = (Some s1, dict [("ok", VBool true)])
                ∧ count_favorites s1 u g = Nat.max 1 (count_favorites s u g))
    as (s1 & Hr1 & Hcount).
  { destruct (add_favorite_cases s payload) as [[H1 Heq]|[H0 Heq]];
      fold u g in H1 || fold u g in H0.
    - exists s. split; [done | lia].
    - eexists. split; [done|]. rewrite count_favorites_insert.
      rewrite decide_True by done. lia. }
  exists s1. split_and!; [done | | done | lia |].
  - destruct (add_favorite_cases s1 payload) as [[_ Heq]|[H0 Heq]]; [done|].
    fold u g in H0. lia.
  - intros Hreach. pose proof (reachable_favorite_unique _ Hreach s u g eq_refl).
    lia.
Qed.

(** Property 2 of the spec on the seeded store: two adds of the same pair
    leave one favorite document. *)
Lemma add_favorite_idempotent_witness :
  let p := {| FavoriteIn.user_email := "a@b.c";
              FavoriteIn.gesture_slug := "terima-kasih" |} in
  ∃ s1, add_favorite seeded p = (Some s1, dict [("ok", VBool true)])
    ∧ add_favorite (Some s1) p = (Some s1, dict [("ok", VBool true)])
    ∧ count_favorites s1 "a@b.c" "terima-kasih" = 1%nat.
Proof.
  intros p.
  destruct (add_favorite_idempotent seeded_store p)
    as (s1 & Hr1 & Hr2 & _ & Hone & _).
  exists s1. split_and!; [exact Hr1 | exact Hr2 |].
  apply Hone. vm_compute. lia.
Defined.

(** ** Profiles: [get_profile] *)

Lemma filter_none {A} (P : A -> Prop) `{!∀ x, Decision (P x)} (l : list A) :
  (∀ x, x ∈ l -> ¬ P x) -> filter P l = [].
Proof.
  induction l as [|a l IH]; intros Hl; [done|].
  rewrite filter_cons, decide_False by (apply Hl; left).
  apply IH. intros x Hx. apply Hl. by right.
Qed.

Lemma find_one_user_known (s : Store) (email : string) (u : Doc) :
  find_one s "user" [("email", CEq email)] = Some u ->
  get_profile (Some s) email = (Some s, Ok (user_profile u)).
Proof.
  intros Hf. unfold get_profile. rewrite Hf.
  by rewrite (truthy_find_one _ _ _ _ _ _ Hf).
Qed.

Lemma find_one_user_unknown (s : Store) (email : string) :
  unknown_email s email <-> find_one s "user" [("email", CEq email)] = None.
Proof.
  rewrite find_one_None. unfold unknown_email.
  split; intros H d Hd; specialize (H d Hd).
  - destruct (matches _ d) eqn:E; [|done]. by apply matches_eq1 in E.
  - intros Hm%matches_eq1. congruence.
Qed.

Lemma find_one_user_created (s : Store) (email : string) :
  unknown_email s email ->
  find_one (create_document "user" (default_profile email) s) "user"
    [("email", CEq email)] = Some (default_profile email).
Proof.
  intros Hun. apply find_one_first. exists (coll s "user"), [].
  split_and!; [apply create_document_coll | by apply matches_eq1 |].
  intros y Hy. specialize (Hun y Hy).
  destruct (matches _ y) eqn:E; [|done]. by apply matches_eq1 in E.
Qed.

Lemma user_profile_default (email : string) :
  user_profile (default_profile email) = default_profile_out email.
Proof. reflexivity. Qed.

Lemma get_profile_unknown (s : Store) (email : string) :
  unknown_email s email ->
  get_profile (Some s) email
  = (Some (create_document "user" (default_profile email) s),
     Ok (default_profile_out email)).
Proof.
  intros Hun. unfold get_profile.
  rewrite (proj1 (find_one_user_unknown s email) Hun). cbn [truthy_doc negb].
  fold (default_profile email). by rewrite (find_one_user_created s email Hun).
Qed.

(** C1. [get_profile] creates a profile on first read.  For an email no
    user document carries, it appends exactly one document (name
    [Pengguna], points 120, level 2, streak 5, badges [[Pemula]]) to the
    [user] collection, touches no other collection, and returns that
    profile as read back; a second call returns the same values and leaves
    the store as it is.  It answers 404 exactly when the database is
    unavailable, and otherwise always returns a profile. *)
Theorem get_profile_lazy (db : option Store) (email : string) :
  (is_not_found (get_profile db email).2 <-> db = None)
  ∧ (∀ s, db = Some s -> ∃ s1 r, get_profile db email = (Some s1, Ok r))
  ∧ (∀ s, db = Some s -> unknown_email s email ->
       ∃ s1, get_profile db email = (Some s1, Ok (default_profile_out email))
         ∧ coll s1 "user" = coll s "user" ++ [default_profile email]
         ∧ length (filter (field_is "email" email) (coll s1 "user")) = 1%nat
         ∧ (∀ c, c ≠ "user" -> s1 !! c = s !! c)
         ∧ get_profile (Some s1) email
           = (Some s1, Ok (default_profile_out email))).
Proof.
  assert (∀ s, ∃ s1 r, get_profile (Some s) email = (Some s1, Ok r)) as Hok.
  { intros s.
    destruct (find_one s "user" [("email", CEq email)]) as [u|] eqn:E.
    - do 2 eexists. by apply find_one_user_known.
    - do 2 eexists. by apply get_profile_unknown, find_one_user_unknown. }
  split_and!.
  - destruct db as [s|].
    + destruct (Hok s) as (s1 & r & ->). split; [by intros [? ?] | done].
    + split; [done | by eexists].
  - intros s ->. apply Hok.
  - intros s -> Hun. eexists. split; [by apply get_profile_unknown|].
    split_and!.
    + apply create_document_coll.
    + rewrite create_document_coll, filter_app, length_app.
      rewrite filter_cons, filter_nil, decide_True by done.
      by rewrite (filter_none _ _ Hun).
    + intros c Hc. by apply create_document_lookup_ne.
    + rewrite <- user_profile_default.
      by apply find_one_user_known, find_one_user_created.
Qed.

(** Property 4 of the spec on the seeded store: the first read creates the
    profile, the second returns the same values and stores nothing more. *)
Lemma get_profile_lazy_witness :
  ∃ s1, get_profile seeded "a@b.c" = (Some s1, Ok (default_profile_out "a@b.c"))
    ∧ coll s1 "user" = [default_profile "a@b.c"]
    ∧ get_profile (Some s1) "a@b.c" = (Some s1, Ok (default_profile_out "a@b.c")).
Proof.
  destruct (get_profile_lazy seeded "a@b.c") as (_ & _ & H).
  destruct (H seeded_store eq_refl) as (s1 & H1 & H2 & _ & _ & H3).
  - intros d Hd. vm_compute in Hd. by apply elem_of_nil in Hd.
  - exists s1. split_and!; [exact H1 | exact H2 | exact H3].
Defined.

(** ** Gesture listing: [list_gestures] *)

Lemma is_prefix_spec (q s : list N) :
  is_prefix q s = true <-> ∃ post, s = q ++ post.
Proof.
  revert s. induction q as [|a q IH]; intros s; simpl.
  - split; [by exists s | done].
  - destruct s as [|b s]; simpl.
    + split; [done | by intros [? ?]].
    + rewrite andb_true_iff, N.eqb_eq, IH. split.
      * intros [-> [post ->]]. by exists post.
      * intros [post [= -> ->]]. split; [done | by exists post].
Qed.

Lemma is_substring_spec (q s : list N) :
  is_substring q s = true <-> ∃ pre post, s = pre ++ q ++ post.
Proof.
  induction s as [|b s IH]; simpl.
  - rewrite orb_false_r, is_prefix_spec. split.
    + intros [post H]. by exists [], post.
    + intros (pre & post & H). destruct pre; [by exists post | done].
  - rewrite orb_true_iff, is_prefix_spec, IH. split.
    + intros [[post H]|(pre & post & ->)].
      * by exists [], post.
      * by exists (b :: pre), post.
    + intros (pre & post & H). destruct pre as [|c pre].
      * left. by exists post.
      * right. injection H as -> ->. by exists pre, post.
Qed.

Lemma is_substring_contains_ci (E : Engine) (q name : string) :
  is_substring (folded E q) (folded E name) = true <-> contains_ci E q name.
Proof. apply is_substring_spec. Qed.

Lemma match_here_literal (E : Engine) (x s : list N) :
  match_here_i E (literal x) s = is_prefix (fold E <$> x) (fold E <$> s).
Proof.
  revert s. induction x as [|a x IH]; intros [|b s]; simpl; try done.
  by rewrite IH.
Qed.

Lemma regex_search_literal (E : Engine) (x s : list N) :
  regex_search_i E (literal x) s = is_substring (fold E <$> x) (fold E <$> s).
Proof.
  induction s as [|b s IH]; simpl; rewrite match_here_literal; [done|].
  by rewrite IH.
Qed.

Lemma regex_fragment_literal (x : list N) :
  forallb (fun c => negb (is_meta c)) x = true ->
  regex_fragment x = Some (literal x).
Proof.
  induction x as [|c x IH]; simpl; [done|].
  intros [Hc Hx]%andb_true_iff. apply negb_true_iff in Hc.
  assert (N.eqb c dot = false) as ->.
  { unfold is_meta in Hc. cbn [fmap list_fmap existsb] in Hc.
    repeat (apply orb_false_iff in Hc as [? Hc]); done. }
  by rewrite Hc, IH.
Qed.

Lemma regex_compile_plain (E : Engine) (x : string) :
  no_meta x = true -> pattern_refused x = false ->
  regex_compile E x = Some (regex_search_i E (literal (utf8_decode x))).
Proof.
  intros Hx Hr. unfold regex_compile. by rewrite Hr, regex_fragment_literal.
Qed.

Lemma regex_compile_refused (E : Engine) (x : string) :
  pattern_refused x = true -> regex_compile E x = None.
Proof. intros Hr. unfold regex_compile. by rewrite Hr. Qed.

(** On a plain query the filter the handler builds selects what the spec
    selects. *)
Lemma gesture_filters_plain (E : Engine) (q category : option string) :
  plain_query q ->
  ∃ f, gesture_filters E q category = Some f
       ∧ ∀ d, matches f d = gesture_selected E q category d.
Proof.
  intros Hq. unfold gesture_filters, gesture_selected, given.
  assert (∀ d, matches
            (if truthy_str category
             then [("category", CEq (default "" category))] else []) d
          = match (if truthy_str category then category else None) with
            | Some c => bool_decide (field_is "category" c d)
            | None => true
            end) as Hcat.
  { intros d. destruct category as [[|a c]|]; try done.
    cbn [truthy_str default]. apply matches_eq1_decide. }
  destruct q as [[|a x]|]; cbn [truthy_str default id].
  - eexists. split; [done|]. intros d. cbn [app]. by rewrite Hcat.
  - destruct (Hq _ eq_refl) as [Hx Hr].
    rewrite (regex_compile_plain E (String a x)) by done.
    eexists. split; [done|]. intros d.
    cbn [fmap option_fmap option_map mbind option_bind app].
    change (matches (?kc :: ?f) d)
      with (cond_holds kc.2 (d !! kc.1) && matches f d).
    rewrite Hcat. f_equal. cbn [fst snd cond_holds].
    destruct (d !! "name") as [[| | |name|]|]; try done.
    apply regex_search_literal.
  - eexists. split; [done|]. intros d. cbn [app]. by rewrite Hcat.
Qed.

Lemma skip_limit_page (page page_size : Z) (docs : list Doc) :
  1 <= page -> 1 <= page_size ->
  (page - 1) * page_size <= INT64_MAX -> page_size <= INT64_MAX ->
  skip_limit ((page - 1) * page_size) page_size docs
  = Ok (take (Z.to_nat page_size)
          (drop (Z.to_nat ((page - 1) * page_size)) docs)).
Proof.
  intros Hp Hs Hn Hm. unfold skip_limit.
  rewrite (proj2 (Z.ltb_ge _ _)) by nia.
  rewrite (proj2 (Z.ltb_ge _ _) Hn).
  rewrite Z.abs_eq by lia.
  rewrite (proj2 (Z.ltb_ge _ _) Hm). cbn [orb].
  by rewrite (proj2 (Z.eqb_neq _ _)) by lia.
Qed.

Lemma gesture_selected_spec (E : Engine) (q category : option string)
    (d : Doc) :
  gesture_selected E q category d = true <->
  (∀ x, given q = Some x ->
     ∃ name, d !! "name" = Some (VStr name) ∧ contains_ci E x name)
  ∧ (∀ c, given category = Some c -> field_is "category" c d).
Proof.
  unfold gesture_selected. rewrite andb_true_iff.
  etransitivity; [apply and_iff_compat_r | apply and_iff_compat_l].
  - destruct (given q) as [x|]; [|by split; [intros _ ? [=] | ]].
    split.
    + intros H ? [= <-]. destruct (d !! "name") as [[| | |name|]|]; try done.
      exists name. split; [done | by apply is_substring_contains_ci].
    + intros H. destruct (H x eq_refl) as (name & -> & Hc).
      by apply is_substring_contains_ci.
  - destruct (given category) as [c|]; [|by split; [intros _ ? [=] | ]].
    rewrite bool_decide_eq_true. split; [by intros H ? [= <-] | auto].
Qed.

Lemma list_gestures_plain (E : Engine) (s : Store)
    (q category : option string) (page page_size : Z) :
  plain_query q -> 1 <= page -> 1 <= page_size ->
  (page - 1) * page_size <= INT64_MAX -> page_size <= INT64_MAX ->
  list_gestures E (Some s) q category page page_size
  = Ok (list_gestures_spec E s q category page page_size).
Proof.
  intros Hq Hp Hs Hn Hm.
  destruct (gesture_filters_plain E q category Hq) as (f & Hf & Hsel).
  unfold list_gestures. rewrite Hf.
  rewrite skip_limit_page by done. unfold list_gestures_spec, find.
  cbn [resp_map]. by rewrite (filter_ext _ _ Hsel).
Qed.

(** C4, as amended.  Whatever the regex engine of the database, for a
    query [q] that is absent, empty or free of regex metacharacters (and
    not refused by the server: at most 32764 bytes, no NUL byte), a page
    number and a page size of at least 1 (both offsets within 64 bits),
    [list_gestures] returns, in insertion order, the projections of the
    gesture documents whose name contains [q] as a substring, letter case
    ignored as the engine folds it (when [q] is non-empty), and whose
    category is [category] (when non-empty), the first [(page-1)*page_size]
    of them skipped and at most [page_size] kept.  On the freshly seeded
    store page 2 of size 1 is exactly the gesture with slug [b]. *)
Theorem list_gestures_paged (E : Engine) :
  (∀ s q category page page_size,
     plain_query q -> 1 <= page -> 1 <= page_size ->
     (page - 1) * page_size <= INT64_MAX -> page_size <= INT64_MAX ->
     list_gestures E (Some s) q category page page_size
     = Ok (list_gestures_spec E s q category page page_size))
  ∧ (∀ q category d,
       gesture_selected E q category d = true <->
       (∀ x, given q = Some x ->
          ∃ name, d !! "name" = Some (VStr name) ∧ contains_ci E x name)
       ∧ (∀ c, given category = Some c -> field_is "category" c d))
  ∧ (∃ g, gestures !! 1%nat = Some g ∧ g !! "slug" = Some (VStr "b")
          ∧ list_gestures E seeded None None 2 1 = Ok [gesture_out g]).
Proof.
  split_and!; [apply list_gestures_plain | apply gesture_selected_spec |].
  eexists. split_and!; [reflexivity | vm_refl | vm_refl].
Qed.

(** A search for [terima] in category [Kata Dasar], first page of 20, on the
    seeded store: the one gesture named [Terima Kasih]. *)
Lemma list_gestures_paged_witness :
  list_gestures ascii_engine seeded (Some "terima") (Some "Kata Dasar") 1 20
  = Ok (list_gestures_spec ascii_engine seeded_store (Some "terima")
          (Some "Kata Dasar") 1 20)
  ∧ (gesture_out <$> drop 2 gestures)
    = list_gestures_spec ascii_engine seeded_store (Some "terima")
        (Some "Kata Dasar") 1 20.
Proof.
  destruct (list_gestures_paged ascii_engine) as (H & _).
  split; [|vm_refl].
  apply (H seeded_store (Some "terima") (Some "Kata Dasar") 1 20).
  - intros x [= <-]. split; reflexivity.
  - lia.
  - lia.
  - vm_compute. discriminate.
  - vm_compute. discriminate.
Defined.

(** C4 as the spec words it fails outside those bounds: a page size
    of 0 lifts the limit, the pattern [.] matches every name although no
    name contains a dot, a page number of 0 asks for a negative skip, and
    an offset beyond 64 bits cannot be sent. *)
Lemma list_gestures_claim_fails :
  (list_gestures ascii_engine seeded None None 1 0
   = Ok (gesture_out <$> gestures)
   ∧ list_gestures_spec ascii_engine seeded_store None None 1 0 = [])
  ∧ (list_gestures ascii_engine seeded (Some ".") None 1 20
     = Ok (gesture_out <$> gestures)
     ∧ list_gestures_spec ascii_engine seeded_store (Some ".") None 1 20 = [])
  ∧ (list_gestures ascii_engine seeded None None 0 20 = Raised "ValueError"
     ∧ list_gestures_spec ascii_engine seeded_store None None 0 20
       = gesture_out <$> gestures)
  ∧ list_gestures ascii_engine seeded None None (2 ^ 64) 1
    = Raised "OverflowError".
Proof. split_and!; vm_refl. Qed.

(** * Further properties of the handlers *)

(** ** From a listing to the detail *)

Lemma skip_limit_subseteq (n m : Z) (docs l : list Doc) :
  skip_limit n m docs = Ok l -> l ⊆ docs.
Proof.
  unfold skip_limit. destruct (n <? 0); [done|].
  destruct (_ || _); [done|]. intros [= <-].
  destruct (m =? 0).
  - apply subseteq_drop.
  - etransitivity; [apply subseteq_take | apply subseteq_drop].
Qed.

Lemma get_VStr (d : Doc) (k x : string) :
  get d k = VStr x -> d !! k = Some (VStr x).
Proof. unfold get. destruct (d !! k); simpl; [by intros -> | done]. Qed.

Lemma find_nil (s : Store) (c : string) : find s c [] = coll s c.
Proof.
  unfold find. induction (coll s c) as [|d l IH]; [done|].
  simpl. by rewrite IH.
Qed.

(** X1. Whatever [list_gestures] returns can be fetched: for every entry of
    any page it answers, the entry's slug is the slug of a stored gesture,
    and [get_gesture] on that slug answers with a gesture of that slug
    instead of a 404. *)
Theorem listed_gesture_is_fetchable (E : Engine) (s : Store)
    (q category : option string) (page page_size : Z) (l : list Doc)
    (g : Doc) (slug : string) :
  list_gestures E (Some s) q category page page_size = Ok l ->
  g ∈ l -> g !! "slug" = Some (VStr slug) ->
  ∃ d, get_gesture (Some s) slug = Ok (gesture_detail d)
       ∧ d ∈ coll s "gesture" ∧ has_slug slug d.
Proof.
  intros Hl Hg Hslug. unfold list_gestures in Hl.
  destruct (gesture_filters E q category) as [f|];
    [|by destruct (skip_limit _ _ _)].
  destruct (skip_limit _ _ _) as [docs| |] eqn:Hsk; try done.
  injection Hl as <-.
  apply list_elem_of_fmap in Hg as (d0 & -> & Hd0).
  apply (skip_limit_subseteq _ _ _ _ Hsk) in Hd0.
  apply elem_of_find in Hd0 as [Hd0 _].
  assert (has_slug slug d0) as Hs0.
  { apply get_VStr. by injection Hslug. }
  destruct (get_gesture_cases s slug) as [[Hno _]|(d & Hd & Hr)].
  - by destruct (Hno d0 Hd0).
  - exists d. split; [done|]. by apply first_with_slug_elem.
Qed.

(** Page 2 of size 1 of the seeded store lists gesture [b]; it is fetchable. *)
Lemma listed_gesture_is_fetchable_witness :
  ∃ d, get_gesture seeded "b" = Ok (gesture_detail d)
       ∧ d ∈ coll seeded_store "gesture" ∧ has_slug "b" d.
Proof.
  apply (listed_gesture_is_fetchable ascii_engine seeded_store None None 2 1
           [dict [("name", VStr "B"); ("slug", VStr "b");
                  ("category", VStr "A-Z"); ("difficulty", VStr "Pemula");
                  ("thumbnail", VStr "/gestures/b.png")]]
           (dict [("name", VStr "B"); ("slug", VStr "b");
                  ("category", VStr "A-Z"); ("difficulty", VStr "Pemula");
                  ("thumbnail", VStr "/gestures/b.png")])).
  - vm_refl.
  - left.
  - vm_refl.
Defined.

(** X2. [list_modules] returns one summary per stored module, in collection
    order, and every listed module can be fetched: [get_module] on the slug
    of an entry answers with a module of that slug instead of a 404. *)
Theorem listed_module_is_fetchable (s : Store) :
  list_modules (Some s) = module_out <$> coll s "module"
  ∧ length (list_modules (Some s)) = count_documents s "module"
  ∧ ∀ m slug, m ∈ list_modules (Some s) -> m !! "slug" = Some (VStr slug) ->
      ∃ d, get_module (Some s) slug = Ok (module_detail d)
           ∧ d ∈ coll s "module" ∧ has_slug slug d.
Proof.
  assert (list_modules (Some s) = module_out <$> coll s "module") as Heq
    by (unfold list_modules; by rewrite find_nil).
  split_and!; [done | by rewrite Heq, length_fmap |].
  intros m slug Hm Hslug. rewrite Heq in Hm.
  apply list_elem_of_fmap in Hm as (d0 & -> & Hd0).
  assert (has_slug slug d0) as Hs0.
  { apply get_VStr. by injection Hslug. }
  destruct (get_module_cases s slug) as [[Hno _]|(d & Hd & Hr)].
  - by destruct (Hno d0 Hd0).
  - exists d. split; [done|]. by apply first_with_slug_elem.
Qed.

(** The seeded store lists two modules; the second one is fetchable. *)
Lemma listed_module_is_fetchable_witness :
  length (list_modules seeded) = 2%nat
  ∧ ∃ d, get_module seeded "ekspresi-emosi" = Ok (module_detail d)
         ∧ d ∈ coll seeded_store "module" ∧ has_slug "ekspresi-emosi" d.
Proof.
  destruct (listed_module_is_fetchable seeded_store) as (_ & Hlen & Hfetch).
  split; [vm_refl|].
  apply (Hfetch (dict [("title", VStr "Ekspresi Emosi");
                       ("slug", VStr "ekspresi-emosi");
                       ("summary", VStr "Bahasa isyarat untuk emosi umum");
                       ("cover", VStr "/covers/emotion.png");
                       ("difficulty", VStr "Menengah")])).
  - apply (bool_decide_unpack _). vm_compute. exact I.
  - vm_refl.
Defined.

(** ** Favorites: adding and listing *)

Lemma list_favorites_filter (s : Store) (u : string) :
  list_favorites (Some s) u
  = favorite_out <$> filter (field_is "user_email" u) (coll s "favorite").
Proof. unfold list_favorites. by rewrite find_eq1. Qed.

Lemma favorite_out_key (u g : string) (d : Doc) :
  favorite_key u g d ->
  favorite_out d = dict [("user_email", VStr u); ("gesture_slug", VStr g)].
Proof.
  intros [Hu Hg]. unfold favorite_out, get, field_is in *. by rewrite Hu, Hg.
Qed.

Lemma dump_user_email (u' : string) (payload : FavoriteIn.t) :
  field_is "user_email" u' (FavoriteIn.model_dump payload)
  <-> u' = FavoriteIn.user_email payload.
Proof.
  unfold field_is, FavoriteIn.model_dump.
  change (dict _ !! "user_email")
    with (Some (VStr (FavoriteIn.user_email payload))).
  split; [by intros [= ->] | by intros ->].
Qed.

Lemma add_favorite_lists_entry (s : Store) (payload : FavoriteIn.t) :
  ∃ s1, add_favorite (Some s) payload = (Some s1, dict [("ok", VBool true)])
    ∧ dict [("user_email", VStr (FavoriteIn.user_email payload));
            ("gesture_slug", VStr (FavoriteIn.gesture_slug payload))]
      ∈ list_favorites (Some s1) (FavoriteIn.user_email payload).
Proof.
  set (u := FavoriteIn.user_email payload).
  set (g := FavoriteIn.gesture_slug payload).
  destruct (add_favorite_cases s payload) as [[H1 Heq]|[H0 Heq]];
    eexists; (split; [exact Heq|]); rewrite list_favorites_filter.
  - unfold count_favorites in H1. fold u g in H1.
    destruct (filter (favorite_key u g) (coll s "favorite")) as [|d l] eqn:E;
      [simpl in H1; lia|].
    assert (d ∈ filter (favorite_key u g) (coll s "favorite")) as Hd
      by (rewrite E; left).
    apply list_elem_of_filter in Hd as [Hk Hd].
    rewrite <- (favorite_out_key u g d Hk). apply list_elem_of_fmap_2.
    apply list_elem_of_filter. split; [apply Hk | done].
  - unfold insert_one. rewrite coll_insert_many_eq, filter_app, fmap_app.
    apply elem_of_app. right.
    rewrite filter_cons, decide_True by by apply dump_user_email.
    left.
Qed.

(** X3. A favorite that was added is listed: after [add_favorite] on an
    available store, [list_favorites] for the payload's user contains the
    entry made of the payload's email and gesture slug. *)
Theorem add_favorite_then_listed (s : Store) (payload : FavoriteIn.t) :
  ∃ s1, add_favorite (Some s) payload = (Some s1, dict [("ok", VBool true)])
    ∧ dict [("user_email", VStr (FavoriteIn.user_email payload));
            ("gesture_slug", VStr (FavoriteIn.gesture_slug payload))]
      ∈ list_favorites (Some s1) (FavoriteIn.user_email payload).
Proof. apply add_favorite_lists_entry. Qed.

(** X4. [add_favorite] never removes or reorders favorites: for every user
    the listing before the call is a prefix of the listing after it, and
    the listing of a user other than the payload's is unchanged. *)
Theorem add_favorite_keeps_listings (s : Store) (payload : FavoriteIn.t)
    (user_email : string) :
  ∃ s1, add_favorite (Some s) payload = (Some s1, dict [("ok", VBool true)])
    ∧ list_favorites (Some s) user_email
      `prefix_of` list_favorites (Some s1) user_email
    ∧ (user_email ≠ FavoriteIn.user_email payload ->
         list_favorites (Some s1) user_email
         = list_favorites (Some s) user_email).
Proof.
  destruct (add_favorite_cases s payload) as [[_ Heq]|[_ Heq]];
    eexists; (split; [exact Heq|]); [done|].
  rewrite !list_favorites_filter. unfold insert_one.
  rewrite coll_insert_many_eq, filter_app, fmap_app. split.
  - by apply prefix_app_r.
  - intros Hne. rewrite filter_cons, decide_False, filter_nil.
    + by rewrite fmap_nil, app_nil_r.
    + by intros H%dump_user_email.
Qed.

(** Two users on the seeded store: adding a favorite for one leaves the
    (empty) listing of the other as it is. *)
Lemma add_favorite_keeps_listings_witness :
  ∃ s1, add_favorite seeded {| FavoriteIn.user_email := "a@b.c";
                               FavoriteIn.gesture_slug := "a" |}
        = (Some s1, dict [("ok", VBool true)])
    ∧ list_favorites (Some s1) "x@y.z" = list_favorites seeded "x@y.z".
Proof.
  destruct (add_favorite_keeps_listings seeded_store
              {| FavoriteIn.user_email := "a@b.c";
                 FavoriteIn.gesture_slug := "a" |} "x@y.z")
    as (s1 & Heq & _ & Hother).
  exists s1. split; [exact Heq|]. apply Hother. discriminate.
Defined.

(** ** What a request can change *)

Lemma step_lookup (s : Store) (r : Request) (c : string) :
  c ∉ writes r ->
  ∃ s', step (Some s) r = Some s' ∧ s' !! c = s !! c.
Proof.
  intros Hc. destruct r as [| | | | | | |p|e| |p]; unfold step;
    try (by exists s).
  - destruct (ensure_seed_data_lookup s) as (s' & Heq & _ & Hf).
    exists s'. split; [done|]. by apply Hf.
  - destruct (add_favorite_frame s p) as (s' & Heq & Hf). rewrite Heq.
    exists s'. split; [done|]. apply Hf. intros ->. apply Hc. left.
  - destruct (get_profile_frame s e) as (s' & r & Heq & Hf). rewrite Heq.
    exists s'. split; [done|]. apply Hf. intros ->. apply Hc. left.
  - destruct (set_progress_frame_lookup s p) as (s' & r & Heq & Hf).
    rewrite Heq. exists s'. split; [done|]. apply Hf. intros ->. apply Hc. left.
Qed.

Lemma step_None (r : Request) : step None r = None.
Proof. by destruct r. Qed.

Lemma step_Some_inv (db : option Store) (r : Request) (s' : Store) :
  step db r = Some s' -> ∃ s, db = Some s.
Proof. destruct db as [s|]; [by exists s | by rewrite step_None]. Qed.

Lemma request_frame_lookup (s : Store) (r : Request) :
  ∃ s', step (Some s) r = Some s' ∧ ∀ c, c ∉ writes r -> s' !! c = s !! c.
Proof.
  destruct (step_lookup s r "") as (s' & Heq & _).
  { by destruct r as [| | | | | | |p|e| |p]; simpl;
      repeat (intros [?|H]%elem_of_cons; [done|revert H]);
      intros ?%elem_of_nil. }
  exists s'. split; [done|]. intros c Hc.
  destruct (step_lookup s r c Hc) as (s2 & Heq2 & Hl). congruence.
Qed.

(** X5. Every request is confined to its own collections: the seed step
    may write [gesture], [module] and [quizquestion], [add_favorite] only
    [favorite], [get_profile] only [user], [set_progress] only [progress],
    and the other handlers nothing.  A request on an available store ends in
    an available store, one on an unavailable handle leaves it unavailable. *)
Theorem request_frame (db : option Store) (r : Request) :
  (db = None -> step db r = None)
  ∧ (∀ s, db = Some s ->
       ∃ s', step db r = Some s'
             ∧ ∀ c, c ∉ writes r -> s' !! c = s !! c).
Proof.
  split; [intros ->; apply step_None|]. intros s ->.
  apply request_frame_lookup.
Qed.

(** A progress submission on the seeded store keeps the gestures. *)
Lemma request_frame_witness :
  ∃ s', step seeded (ReqSetProgress
                       {| ProgressIn.user_email := "a@b.c";
                          ProgressIn.module_slug := "dasar-dasar";
                          ProgressIn.completed_lessons := [0] |}) = Some s'
        ∧ s' !! "gesture" = seeded_store !! "gesture".
Proof.
  destruct (request_frame seeded
              (ReqSetProgress
                 {| ProgressIn.user_email := "a@b.c";
                    ProgressIn.module_slug := "dasar-dasar";
                    ProgressIn.completed_lessons := [0] |})) as [_ H].
  destruct (H seeded_store eq_refl) as (s' & Heq & Hf).
  exists s'. split; [exact Heq|]. apply Hf.
  intros [Hin|Hin]%elem_of_cons; [discriminate | by apply elem_of_nil in Hin].
Defined.

(** ** Uniqueness of keys in reachable states *)

Lemma default_profile_email (e' e : string) :
  field_is "email" e' (default_profile e) <-> e' = e.
Proof.
  unfold field_is, default_profile.
  change (dict _ !! "email") with (Some (VStr e)).
  split; [by intros [= ->] | by intros ->].
Qed.

Lemma get_profile_cases (s : Store) (email : string) :
  ((1 <= count_users s email)%nat ∧ (get_profile (Some s) email).1 = Some s)
  ∨ (count_users s email = 0%nat
     ∧ (get_profile (Some s) email).1
       = Some (create_document "user" (default_profile email) s)).
Proof.
  unfold count_users.
  destruct (find_one s "user" [("email", CEq email)]) as [u|] eqn:E.
  - left. rewrite (find_one_user_known _ _ _ E). split; [|done].
    unfold find_one in E. rewrite find_eq1 in E.
    destruct (filter _ _); [done | simpl; lia].
  - right. apply find_one_user_unknown in E.
    rewrite (get_profile_unknown _ _ E). split; [|done].
    by rewrite (filter_none _ _ E).
Qed.

Lemma reachable_user_count (db : option Store) :
  reachable db -> ∀ s e, db = Some s -> (count_users s e <= 1)%nat.
Proof.
  induction 1 as [|db r Hreach IH]; intros s' e' Hs'.
  - injection Hs' as <-. unfold count_users, coll. rewrite lookup_empty.
    simpl. lia.
  - destruct (step_Some_inv _ _ _ Hs') as [s ->].
    specialize (IH s e' eq_refl).
    assert ((∃ e, r = ReqGetProfile e) ∨ "user" ∉ writes r) as [[e ->]|Hr].
    { destruct r; eauto; right; simpl;
        repeat (intros [?|H]%elem_of_cons; [done|revert H]);
        intros ?%elem_of_nil; done. }
    + unfold step in Hs'.
      destruct (get_profile_cases s e) as [[_ Heq]|[H0 Heq]];
        rewrite Heq in Hs'; injection Hs' as <-; [done|].
      unfold count_users in *.
      rewrite create_document_coll, filter_app, length_app, filter_cons,
        filter_nil.
      case_decide as Hd; simpl; [|lia].
      apply default_profile_email in Hd as ->. rewrite H0. lia.
    + destruct (step_lookup s r "user" Hr) as (s2 & Heq & Hl).
      rewrite Heq in Hs'. injection Hs' as <-.
      unfold count_users. by rewrite (coll_lookup_eq _ _ _ Hl).
Qed.

Lemma new_progress_key (u m : string) (payload : ProgressIn.t) :
  progress_key u m (new_progress payload)
  <-> u = ProgressIn.user_email payload ∧ m = ProgressIn.module_slug payload.
Proof.
  unfold progress_key, field_is, new_progress.
  change (dict _ !! "user_email")
    with (Some (VStr (ProgressIn.user_email payload))).
  change (dict _ !! "module_slug")
    with (Some (VStr (ProgressIn.module_slug payload))).
  split; [intros [[= ->] [= ->]] | intros [-> ->]]; done.
Qed.

Lemma filter_length_middle {A} (P : A -> Prop) `{!∀ x, Decision (P x)}
    (pre post : list A) (x y : A) :
  (P x <-> P y) ->
  length (filter P (pre ++ x :: post)) = length (filter P (pre ++ y :: post)).
Proof.
  intros Hxy. rewrite !filter_app, !length_app, !filter_cons.
  destruct (decide (P x)) as [Hx|Hx].
  - by rewrite decide_True by by apply Hxy.
  - by rewrite decide_False by (by intros ?%Hxy).
Qed.

Lemma reachable_progress_count (db : option Store) :
  reachable db -> ∀ s u m, db = Some s -> (count_progress s u m <= 1)%nat.
Proof.
  induction 1 as [|db r Hreach IH]; intros s' u' m' Hs'.
  - injection Hs' as <-. unfold count_progress, coll. rewrite lookup_empty.
    simpl. lia.
  - destruct (step_Some_inv _ _ _ Hs') as [s ->].
    specialize (IH s u' m' eq_refl).
    assert ((∃ p, r = ReqSetProgress p) ∨ "progress" ∉ writes r)
      as [[p ->]|Hr].
    { destruct r; eauto; right; simpl;
        repeat (intros [?|H]%elem_of_cons; [done|revert H]);
        intros ?%elem_of_nil; done. }
    + unfold step in Hs'.
      destruct (fits_int64_dec (ProgressIn.completed_lessons p))
        as [Hfit|Hfit];
        [|by rewrite (set_progress_overflow _ _ Hfit) in Hs';
             injection Hs' as <-].
      destruct (set_progress_cases s p Hfit) as (s2 & Heq & _ & Hcases).
      rewrite Heq in Hs'. injection Hs' as <-. unfold count_progress in *.
      destruct Hcases as [(pre & d & post & Hc & Hd & Hpre & ->)|[Hno ->]].
      * rewrite Hc in IH.
        rewrite (filter_length_middle _ pre post _ d); [done|].
        apply progress_key_insert.
      * rewrite filter_app, length_app, filter_cons, filter_nil.
        case_decide as Hk; simpl; [|lia].
        apply new_progress_key in Hk as [-> ->].
        rewrite (filter_none _ _ Hno). simpl. lia.
    + destruct (step_lookup s r "progress" Hr) as (s2 & Heq & Hl).
      rewrite Heq in Hs'. injection Hs' as <-.
      unfold count_progress. by rewrite (coll_lookup_eq _ _ _ Hl).
Qed.

(** X6. Emails are unique: in every state reachable through the API from
    an empty store, the [user] collection holds at most one document per
    email ([get_profile], its only writer, creates a profile only for an
    email no document carries). *)
Theorem user_email_unique (s : Store) (email : string) :
  reachable (Some s) -> (count_users s email <= 1)%nat.
Proof. intros Hreach. by eapply reachable_user_count. Qed.

(** One read of an unknown email after start-up leaves one profile. *)
Lemma user_email_unique_witness :
  (count_users (create_document "user" (default_profile "a@b.c") seeded_store)
     "a@b.c" <= 1)%nat.
Proof.
  apply user_email_unique.
  change (reachable (step (step (Some ∅) ReqSeed) (ReqGetProfile "a@b.c"))).
  do 2 apply reachable_step. apply reachable_empty.
Defined.

(** X7. Progress pairs are unique: in every state reachable through the
    API from an empty store, the [progress] collection holds at most one
    record per ([user_email], [module_slug]) pair. *)
Theorem progress_pair_unique (s : Store) (user_email module_slug : string) :
  reachable (Some s) -> (count_progress s user_email module_slug <= 1)%nat.
Proof. intros Hreach. by eapply reachable_progress_count. Qed.

(** A submission on the empty store leaves one record of its pair. *)
Lemma progress_pair_unique_witness :
  (count_progress
     {["progress" := [new_progress {| ProgressIn.user_email := "a@b.c";
                                      ProgressIn.module_slug := "m";
                                      ProgressIn.completed_lessons := [2%Z] |}]]}
     "a@b.c" "m" <= 1)%nat.
Proof.
  apply progress_pair_unique.
  change (reachable
            (step (Some ∅)
               (ReqSetProgress {| ProgressIn.user_email := "a@b.c";
                                  ProgressIn.module_slug := "m";
                                  ProgressIn.completed_lessons := [2] |}))).
  apply reachable_step, reachable_empty.
Defined.

(** ** The seeded collections in reachable states *)

Lemma reachable_seeded_coll (db : option Store) :
  reachable db ->
  ∀ s c batch, db = Some s -> (c, batch) ∈ seeded_collections ->
               coll s c = [] ∨ coll s c = batch.
Proof.
  induction 1 as [|db r Hreach IH]; intros s' c batch Hs' Hin.
  - injection Hs' as <-. by left.
  - assert (c ∈ seeded_collections.*1) as Hc
      by (apply list_elem_of_fmap; by exists (c, batch)).
    assert (r = ReqSeed ∨ r ≠ ReqSeed) as [->|Hr] by (destruct r; auto).
    + destruct db as [s|]; [|done].
      destruct (ensure_seed_data_lookup s) as (s2 & Heq & Hl & _).
      unfold step in Hs'. rewrite Heq in Hs'. injection Hs' as ->.
      unfold coll at 1 2. rewrite (Hl c batch Hin).
      case_decide as Hv; [by right|]. by eapply IH.
    + destruct (step_seeded_collections db r s' c Hs' Hr Hc)
        as (s & -> & Hl).
      rewrite (coll_lookup_eq _ _ _ Hl). by eapply IH.
Qed.

(** X8. In every state reachable through the API from an empty store,
    slugs identify what is stored: [get_gesture] on the slug of a stored
    gesture returns the detail of that very document, and [get_module] on
    the slug of a stored module returns the detail of that very module. *)
Theorem stored_slug_fetches_its_document (s : Store) :
  reachable (Some s) ->
  (∀ g slug, g ∈ coll s "gesture" -> has_slug slug g ->
     get_gesture (Some s) slug = Ok (gesture_detail g))
  ∧ (∀ m slug, m ∈ coll s "module" -> has_slug slug m ->
       get_module (Some s) slug = Ok (module_detail m)).
Proof.
  intros Hreach. split.
  - intros g slug Hg Hslug.
    destruct (reachable_seeded_coll _ Hreach s "gesture" gestures eq_refl)
      as [Hc|Hc]; [left | by rewrite Hc in Hg; apply elem_of_nil in Hg |].
    unfold get_gesture, find_one, find. rewrite Hc in Hg |- *. clear Hc.
    unfold gestures in Hg.
    repeat (apply elem_of_cons in Hg as [->|Hg]);
      [..|by apply elem_of_nil in Hg];
      unfold has_slug in Hslug; vm_compute in Hslug;
      injection Hslug as <-; vm_refl.
  - intros m slug Hm Hslug.
    destruct (reachable_seeded_coll _ Hreach s "module" modules eq_refl)
      as [Hc|Hc]; [right; left | by rewrite Hc in Hm; apply elem_of_nil in Hm |].
    unfold get_module, find_one, find. rewrite Hc in Hm |- *. clear Hc.
    unfold modules in Hm.
    repeat (apply elem_of_cons in Hm as [->|Hm]);
      [..|by apply elem_of_nil in Hm];
      unfold has_slug in Hslug; vm_compute in Hslug;
      injection Hslug as <-; vm_refl.
Qed.

(** After start-up and a favorite, the third seeded gesture is fetched by
    its slug. *)
Lemma stored_slug_fetches_its_document_witness :
  ∃ g, gestures !! 2%nat = Some g
       ∧ get_gesture
           (Some (insert_one "favorite"
                    (FavoriteIn.model_dump
                       {| FavoriteIn.user_email := "a@b.c";
                          FavoriteIn.gesture_slug := "a" |}) seeded_store))
           "terima-kasih" = Ok (gesture_detail g).
Proof.
  eexists. split; [reflexivity|].
  refine (proj1 (stored_slug_fetches_its_document _ _) _ _ _ _).
  - change (reachable
              (step (step (Some ∅) ReqSeed)
                 (ReqAddFavorite {| FavoriteIn.user_email := "a@b.c";
                                    FavoriteIn.gesture_slug := "a" |}))).
    do 2 apply reachable_step. apply reachable_empty.
  - apply (bool_decide_unpack _). vm_compute. exact I.
  - vm_refl.
Defined.

(** ** Writers of different collections *)

Lemma add_favorite_writes_only (payload : FavoriteIn.t) :
  writes_only "favorite" (fun db => (add_favorite db payload).1).
Proof.
  exists (fun docs =>
    if truthy_doc
         (head (List.filter
                  (matches (favorite_filter (FavoriteIn.user_email payload)
                              (FavoriteIn.gesture_slug payload))) docs))
    then None else Some (docs ++ [FavoriteIn.model_dump payload])).
  intros s. unfold add_favorite, find_one, find, favorite_filter.
  by destruct (truthy_doc _).
Qed.

Lemma get_profile_writes_only (email : string) :
  writes_only "user" (fun db => (get_profile db email).1).
Proof.
  exists (fun docs =>
    if negb (truthy_doc
               (head (List.filter (matches [("email", CEq email)]) docs)))
    then Some (docs ++ [default_profile email]) else None).
  intros s. unfold get_profile, find_one at 1, find at 1.
  by destruct (negb (truthy_doc _)).
Qed.

Lemma set_progress_store (s : Store) (payload : ProgressIn.t) :
  (set_progress (Some s) payload).1
  = Some (if forallb int64 (ProgressIn.completed_lessons payload)
          then <["progress" := upserted_progress payload (coll s "progress")]> s
          else s).
Proof.
  destruct (forallb int64 _) eqn:E.
  - apply forallb_int64 in E. rewrite (set_progress_fits _ _ E).
    unfold update_one_upsert, upserted_progress, progress_filter.
    cbn [fst]. by destruct (update_first _ _ _).
  - rewrite set_progress_overflow; [done|].
    intros H%forallb_int64. congruence.
Qed.

Lemma set_progress_writes_only (payload : ProgressIn.t) :
  writes_only "progress" (fun db => (set_progress db payload).1).
Proof.
  exists (fun docs =>
    if forallb int64 (ProgressIn.completed_lessons payload)
    then Some (upserted_progress payload docs) else None).
  intros s. rewrite set_progress_store. by destruct (forallb int64 _).
Qed.

Lemma coll_insert_ne (s : Store) (c c' : string) (docs : list Doc) :
  c ≠ c' -> coll (<[c := docs]> s) c' = coll s c'.
Proof. intros Hne. unfold coll. by rewrite lookup_insert_ne. Qed.

Lemma writes_only_commute (c1 c2 : string)
    (w1 w2 : option Store -> option Store) :
  c1 ≠ c2 -> writes_only c1 w1 -> writes_only c2 w2 ->
  ∀ s, w1 (w2 (Some s)) = w2 (w1 (Some s)).
Proof.
  intros Hne [F1 H1] [F2 H2] s. rewrite H2, H1, H1, H2.
  destruct (F1 (coll s c1)) as [d1|] eqn:E1;
    destruct (F2 (coll s c2)) as [d2|] eqn:E2;
    rewrite ?coll_insert_ne by done; rewrite ?E1, ?E2; try done.
  by rewrite insert_insert_ne.
Qed.

(** X9. Writers of different collections commute: submitting progress,
    adding a favorite and reading a profile (which may create it) leave the
    same store in either order. *)
Theorem writers_commute (s : Store) (fav : FavoriteIn.t) (prog : ProgressIn.t)
    (email : string) :
  (set_progress (add_favorite (Some s) fav).1 prog).1
  = (add_favorite (set_progress (Some s) prog).1 fav).1
  ∧ (get_profile (add_favorite (Some s) fav).1 email).1
    = (add_favorite (get_profile (Some s) email).1 fav).1
  ∧ (get_profile (set_progress (Some s) prog).1 email).1
    = (set_progress (get_profile (Some s) email).1 prog).1.
Proof.
  split_and!.
  - apply (writes_only_commute "progress" "favorite"
             (fun db => (set_progress db prog).1)
             (fun db => (add_favorite db fav).1));
      [done | apply set_progress_writes_only | apply add_favorite_writes_only].
  - apply (writes_only_commute "user" "favorite"
             (fun db => (get_profile db email).1)
             (fun db => (add_favorite db fav).1));
      [done | apply get_profile_writes_only | apply add_favorite_writes_only].
  - apply (writes_only_commute "user" "progress"
             (fun db => (get_profile db email).1)
             (fun db => (set_progress db prog).1));
      [done | apply get_profile_writes_only | apply set_progress_writes_only].
Qed.

(** ** Progress: composing submissions *)

Lemma upserted_progress_twice (u m : string) (L0 L1 : list Z)
    (docs : list Doc) :
  upserted_progress
    {| ProgressIn.user_email := u; ProgressIn.module_slug := m;
       ProgressIn.completed_lessons := L1 |}
    (upserted_progress
       {| ProgressIn.user_email := u; ProgressIn.module_slug := m;
          ProgressIn.completed_lessons := L0 |} docs)
  = upserted_progress
      {| ProgressIn.user_email := u; ProgressIn.module_slug := m;
         ProgressIn.completed_lessons := L1 |} docs.
Proof.
  unfold upserted_progress. cbn [ProgressIn.user_email ProgressIn.module_slug
    ProgressIn.completed_lessons].
  destruct (update_first (progress_filter u m)
              [("completed_lessons", ints L0)] docs) as [docs0|] eqn:E0.
  - apply update_first_Some in E0 as (pre & d & post & -> & Hd & Hpre & ->).
    assert (update_first (progress_filter u m)
              [("completed_lessons", ints L1)]
              (pre ++ apply_set [("completed_lessons", ints L0)] d :: post)
            = Some (pre ++ <["completed_lessons" := ints L1]> d :: post)) as ->.
    { apply update_first_Some. eexists pre, _, post.
      split_and!; [done | | done |].
      - apply progress_key_matches, progress_key_insert.
        by apply progress_key_matches.
      - cbn [apply_set foldl fst snd]. by rewrite insert_insert_eq. }
    assert (update_first (progress_filter u m)
              [("completed_lessons", ints L1)] (pre ++ d :: post)
            = Some (pre ++ <["completed_lessons" := ints L1]> d :: post)) as ->.
    { apply update_first_Some. by exists pre, d, post. }
    done.
  - assert (update_first (progress_filter u m)
              [("completed_lessons", ints L1)] docs = None) as ->.
    { apply (proj2 (update_first_None _ _ _)).
      exact (proj1 (update_first_None _ _ _) E0). }
    pose proof (proj1 (update_first_None _ _ _) E0) as Hno.
    assert (update_first (progress_filter u m)
              [("completed_lessons", ints L1)]
              (docs ++ [new_progress
                          {| ProgressIn.user_email := u;
                             ProgressIn.module_slug := m;
                             ProgressIn.completed_lessons := L0 |}])
            = Some (docs ++ [new_progress
                          {| ProgressIn.user_email := u;
                             ProgressIn.module_slug := m;
                             ProgressIn.completed_lessons := L1 |}])) as ->.
    { apply update_first_Some. eexists docs, _, [].
      split_and!; [done | | done |].
      - by apply progress_key_matches, progress_key_new.
      - reflexivity. }
    done.
Qed.

(** X10. Last writer wins, without a trace: when the second list fits in
    64 bits, two [set_progress] calls for the same pair leave the very
    store a single call with the second list leaves, whether or not the
    first call was accepted; in particular submitting the same list twice
    changes nothing the second time. *)
Theorem set_progress_last_writer_wins (s : Store) (user_email module_slug : string)
    (L0 L1 : list Z) :
  fits_int64 L1 ->
  (set_progress
     (set_progress (Some s)
        {| ProgressIn.user_email := user_email;
           ProgressIn.module_slug := module_slug;
           ProgressIn.completed_lessons := L0 |}).1
     {| ProgressIn.user_email := user_email;
        ProgressIn.module_slug := module_slug;
        ProgressIn.completed_lessons := L1 |}).1
  = (set_progress (Some s)
       {| ProgressIn.user_email := user_email;
          ProgressIn.module_slug := module_slug;
          ProgressIn.completed_lessons := L1 |}).1.
Proof.
  intros Hfit%forallb_int64. rewrite !set_progress_store.
  cbn [ProgressIn.completed_lessons]. rewrite Hfit.
  destruct (forallb int64 L0); [|done].
  assert (∀ docs, coll (<["progress" := docs]> s) "progress" = docs) as ->
    by (intros docs; unfold coll; by rewrite lookup_insert_eq).
  by rewrite upserted_progress_twice, insert_insert_eq.
Qed.

(** [[0,1]] then [[2]] on the empty store leaves what [[2]] alone leaves. *)
Lemma set_progress_last_writer_wins_witness :
  (set_progress
     (set_progress (Some ∅)
        {| ProgressIn.user_email := "a@b.c";
           ProgressIn.module_slug := "m";
           ProgressIn.completed_lessons := [0; 1] |}).1
     {| ProgressIn.user_email := "a@b.c";
        ProgressIn.module_slug := "m";
        ProgressIn.completed_lessons := [2] |}).1
  = Some {["progress" := [new_progress
                            {| ProgressIn.user_email := "a@b.c";
                               ProgressIn.module_slug := "m";
                               ProgressIn.completed_lessons := [2] |}]]}.
Proof.
  rewrite (set_progress_last_writer_wins ∅ "a@b.c" "m" [0; 1] [2]).
  - vm_refl.
  - apply forallb_int64. reflexivity.
Defined.

Lemma progress_key_inj (u m u' m' : string) (d : Doc) :
  progress_key u m d -> progress_key u' m' d -> u' = u ∧ m' = m.
Proof.
  unfold progress_key, field_is. intros [H1 H2] [H3 H4].
  rewrite H1 in H3. rewrite H2 in H4. by simplify_eq.
Qed.

Lemma filter_other_pair (u m u' m' : string) (payload : ProgressIn.t)
    (docs : list Doc) :
  u = ProgressIn.user_email payload -> m = ProgressIn.module_slug payload ->
  ¬ (u' = u ∧ m' = m) ->
  List.filter (matches (progress_filter u' m')) (upserted_progress payload docs)
  = List.filter (matches (progress_filter u' m')) docs.
Proof.
  intros Hu Hm Hne. unfold upserted_progress. rewrite <- Hu, <- Hm.
  destruct (update_first _ _ docs) as [docs'|] eqn:E.
  - apply update_first_Some in E as (pre & d & post & -> & Hd & _ & ->).
    apply progress_key_matches in Hd.
    rewrite !List.filter_app. cbn [List.filter apply_set foldl fst snd].
    assert (matches (progress_filter u' m') d = false) as ->.
    { apply progress_key_not_matches. intros Hd'.
      apply Hne. by eapply progress_key_inj. }
    assert (matches (progress_filter u' m')
              (<["completed_lessons" :=
                   ints (ProgressIn.completed_lessons payload)]> d) = false)
      as ->; [|done].
    apply progress_key_not_matches. intros Hd'%progress_key_insert.
    apply Hne. by eapply progress_key_inj.
  - rewrite List.filter_app. cbn [List.filter].
    assert (matches (progress_filter u' m') (new_progress payload) = false)
      as ->; [|by rewrite app_nil_r].
    apply progress_key_not_matches. intros Hk%new_progress_key.
    apply Hne. by rewrite Hu, Hm.
Qed.

(** X11. [set_progress] for one pair leaves the progress of every other
    pair as it reads: [get_progress] for a different user or a different
    module returns the same answer before and after. *)
Theorem set_progress_other_pair (s : Store) (payload : ProgressIn.t)
    (user_email module_slug : string) :
  ¬ (user_email = ProgressIn.user_email payload
     ∧ module_slug = ProgressIn.module_slug payload) ->
  get_progress (set_progress (Some s) payload).1 user_email module_slug
  = get_progress (Some s) user_email module_slug.
Proof.
  intros Hne. rewrite set_progress_store.
  destruct (forallb int64 _); [|done]. unfold get_progress, find_one, find.
  assert (∀ docs, coll (<["progress" := docs]> s) "progress" = docs) as ->
    by (intros docs; unfold coll; by rewrite lookup_insert_eq).
  fold (progress_filter user_email module_slug).
  by rewrite (filter_other_pair _ _ _ _ payload _ eq_refl eq_refl Hne).
Qed.

(** Progress of one module is kept when another module is submitted. *)
Lemma set_progress_other_pair_witness :
  let p0 := {| ProgressIn.user_email := "a@b.c";
               ProgressIn.module_slug := "dasar-dasar";
               ProgressIn.completed_lessons := [0; 1] |} in
  let p1 := {| ProgressIn.user_email := "a@b.c";
               ProgressIn.module_slug := "ekspresi-emosi";
               ProgressIn.completed_lessons := [2] |} in
  get_progress (set_progress (set_progress (Some ∅) p0).1 p1).1
    "a@b.c" "dasar-dasar"
  = dict [("completed_lessons", ints [0; 1])].
Proof.
  intros p0 p1.
  refine (eq_trans
            (set_progress_other_pair {["progress" := [new_progress p0]]} p1
               "a@b.c" "dasar-dasar" _) _).
  - intros [_ H]. discriminate H.
  - vm_refl.
Defined.

(** ** Reads and the requests of others *)

Lemma find_coll_eq (s s' : Store) (c : string) (f : Filter) :
  s' !! c = s !! c -> find s' c f = find s c f.
Proof. intros H. unfold find. by rewrite (coll_lookup_eq _ _ _ H). Qed.

Lemma find_one_coll_eq (s s' : Store) (c : string) (f : Filter) :
  s' !! c = s !! c -> find_one s' c f = find_one s c f.
Proof. intros H. unfold find_one. by rewrite (find_coll_eq _ _ _ _ H). Qed.

Lemma get_profile_answer (s : Store) (email : string) :
  (get_profile (Some s) email).2
  = match find_one s "user" [("email", CEq email)] with
    | Some u => Ok (user_profile u)
    | None => Ok (default_profile_out email)
    end.
Proof.
  destruct (find_one s "user" [("email", CEq email)]) as [u|] eqn:E.
  - by rewrite (find_one_user_known _ _ _ E).
  - apply find_one_user_unknown in E. by rewrite (get_profile_unknown _ _ E).
Qed.

(** X12. An answer changes only through a request that writes its
    collection: after any request that does not write [gesture], the
    answers of [list_gestures] and [get_gesture] are what they were, and
    likewise for [list_modules] and [get_module] on [module], [get_quiz] on
    [quizquestion], [list_favorites] on [favorite], [get_progress] on
    [progress] and the profile returned by [get_profile] on [user]. *)
Theorem answers_stable (s : Store) (r : Request) :
  ∃ s', step (Some s) r = Some s'
    ∧ ("gesture" ∉ writes r ->
         (∀ E q category page page_size,
            list_gestures E (Some s') q category page page_size
            = list_gestures E (Some s) q category page page_size)
         ∧ ∀ slug, get_gesture (Some s') slug = get_gesture (Some s) slug)
    ∧ ("module" ∉ writes r ->
         list_modules (Some s') = list_modules (Some s)
         ∧ ∀ slug, get_module (Some s') slug = get_module (Some s) slug)
    ∧ ("quizquestion" ∉ writes r ->
         ∀ module_slug, get_quiz (Some s') module_slug
                        = get_quiz (Some s) module_slug)
    ∧ ("favorite" ∉ writes r ->
         ∀ user_email, list_favorites (Some s') user_email
                       = list_favorites (Some s) user_email)
    ∧ ("progress" ∉ writes r ->
         ∀ user_email module_slug,
           get_progress (Some s') user_email module_slug
           = get_progress (Some s) user_email module_slug)
    ∧ ("user" ∉ writes r ->
         ∀ email, (get_profile (Some s') email).2
                  = (get_profile (Some s) email).2).
Proof.
  destruct (request_frame_lookup s r) as (s' & Heq & Hf).
  exists s'. split; [done|].
  split_and!; intros Hc; specialize (Hf _ Hc).
  - split.
    + intros E q category page page_size. unfold list_gestures.
      destruct (gesture_filters E q category) as [f|]; [|done].
      by rewrite (find_coll_eq _ _ _ _ Hf).
    + intros slug. unfold get_gesture. by rewrite (find_one_coll_eq _ _ _ _ Hf).
  - split.
    + unfold list_modules. by rewrite (find_coll_eq _ _ _ _ Hf).
    + intros slug. unfold get_module. by rewrite (find_one_coll_eq _ _ _ _ Hf).
  - intros m. unfold get_quiz. by rewrite (find_coll_eq _ _ _ _ Hf).
  - intros u. unfold list_favorites. by rewrite (find_coll_eq _ _ _ _ Hf).
  - intros u m. unfold get_progress.
    by rewrite (find_one_coll_eq _ _ _ _ Hf).
  - intros e. rewrite !get_profile_answer.
    by rewrite (find_one_coll_eq _ _ _ _ Hf).
Qed.

(** ** Profiles: when a read writes *)

(** X13. [get_profile] writes exactly when the email is unknown: on an
    available store it leaves the store as it is if and only if some user
    document carries the email, and then it returns the projection of a
    stored document with that email. *)
Theorem get_profile_writes_iff_unknown (s : Store) (email : string) :
  ((get_profile (Some s) email).1 = Some s <-> ¬ unknown_email s email)
  ∧ (¬ unknown_email s email ->
       ∃ u, u ∈ coll s "user" ∧ field_is "email" email u
            ∧ get_profile (Some s) email = (Some s, Ok (user_profile u))).
Proof.
  assert (¬ unknown_email s email ->
            ∃ u, u ∈ coll s "user" ∧ field_is "email" email u
                 ∧ get_profile (Some s) email = (Some s, Ok (user_profile u)))
    as Hknown.
  { intros Hk.
    destruct (find_one s "user" [("email", CEq email)]) as [u|] eqn:E.
    - exists u. apply find_one_Some in E as Hu. destruct Hu as [Hin Hm].
      split_and!; [done | by apply matches_eq1 | by apply find_one_user_known].
    - by apply find_one_user_unknown in E. }
  split; [|done]. split.
  - intros Hsame Hun. rewrite (get_profile_unknown _ _ Hun) in Hsame.
    cbn [fst] in Hsame. injection Hsame as Hsame.
    assert (length (coll (create_document "user" (default_profile email) s)
                      "user") = length (coll s "user")) as Hlen
      by by rewrite Hsame.
    rewrite create_document_coll, length_app in Hlen. simpl in Hlen. lia.
  - intros Hk. destruct (Hknown Hk) as (u & _ & _ & ->). done.
Qed.

(** On the store left by a first read, the email is known: the second read
    writes nothing. *)
Lemma get_profile_writes_iff_unknown_witness :
  (get_profile
     (Some (create_document "user" (default_profile "a@b.c") seeded_store))
     "a@b.c").1
  = Some (create_document "user" (default_profile "a@b.c") seeded_store).
Proof.
  apply (get_profile_writes_iff_unknown
           (create_document "user" (default_profile "a@b.c") seeded_store)
           "a@b.c").
  intros Hun. apply (Hun (default_profile "a@b.c")).
  - rewrite create_document_coll. apply elem_of_app. right. left.
  - vm_refl.
Defined.

(** ** Pagination of [list_gestures] *)

Lemma page_items_plain (E : Engine) (s : Store) (q category : option string)
    (page page_size : Z) :
  plain_query q -> 1 <= page -> 1 <= page_size ->
  (page - 1) * page_size <= INT64_MAX -> page_size <= INT64_MAX ->
  page_items E (Some s) q category page page_size
  = gesture_out <$>
      take (Z.to_nat page_size)
        (drop (Z.to_nat ((page - 1) * page_size))
           (selected_gestures E s q category)).
Proof.
  intros Hq Hp Hs Hn Hm. unfold page_items.
  by rewrite list_gestures_plain.
Qed.

Lemma pages_concat (E : Engine) (s : Store) (q category : option string)
    (page_size : Z) (n : nat) :
  plain_query q -> 1 <= page_size -> Z.of_nat n * page_size <= INT64_MAX ->
  concat (List.map
            (fun k => page_items E (Some s) q category (Z.of_nat k + 1)
                        page_size)
            (seq 0 n))
  = gesture_out <$>
      take (n * Z.to_nat page_size) (selected_gestures E s q category).
Proof.
  intros Hq Hs. induction n as [|n IH]; intros Hn; [done|].
  rewrite seq_S, map_app, concat_app, IH by nia. cbn [List.map concat].
  rewrite app_nil_r, page_items_plain by (done || nia).
  rewrite <- fmap_app. f_equal.
  replace (Z.to_nat ((Z.of_nat (0 + n) + 1 - 1) * page_size))
    with (n * Z.to_nat page_size)%nat by nia.
  rewrite take_take_drop. f_equal. lia.
Qed.

(** X14. The pages of [list_gestures] tile the result: whatever the regex
    engine, for a query free of regex metacharacters (and not refused by
    the server: at most 32764 bytes, no NUL byte) and a page size of at
    least 1, the concatenation of pages 1 to [n] is the first
    [n * page_size] selected gestures in insertion order, so no gesture is
    repeated or skipped between pages; once [n * page_size] reaches the
    number of matches the pages hold all of them. *)
Theorem pages_tile_the_matches (E : Engine) (s : Store)
    (q category : option string) (page_size : Z) (n : nat) :
  plain_query q -> 1 <= page_size -> Z.of_nat n * page_size <= INT64_MAX ->
  concat (List.map
            (fun k => page_items E (Some s) q category (Z.of_nat k + 1)
                        page_size)
            (seq 0 n))
  = gesture_out <$>
      take (n * Z.to_nat page_size) (selected_gestures E s q category)
  ∧ ((length (selected_gestures E s q category) <= n * Z.to_nat page_size)%nat ->
       concat (List.map
                 (fun k => page_items E (Some s) q category (Z.of_nat k + 1)
                             page_size)
                 (seq 0 n))
       = gesture_out <$> selected_gestures E s q category).
Proof.
  intros Hq Hs Hn. split; [by apply pages_concat|].
  intros Hlen. rewrite pages_concat by done. by rewrite take_ge.
Qed.

(** Two pages of size 2 over the three seeded gestures hold all of them. *)
Lemma pages_tile_the_matches_witness :
  page_items ascii_engine seeded None None 1 2
  ++ page_items ascii_engine seeded None None 2 2
  = gesture_out <$> gestures.
Proof.
  destruct (pages_tile_the_matches ascii_engine seeded_store None None 2 2)
    as [_ H].
  - intros x [=].
  - lia.
  - vm_compute. discriminate.
  - rewrite <- (app_nil_r (page_items ascii_engine seeded None None 2 2)).
    etransitivity; [apply H; vm_compute; lia|]. vm_refl.
Defined.

(** X15. A page is never longer than [page_size], and a page past the end
    is an empty list rather than an error: whatever the regex engine, for a
    query free of regex metacharacters (and not refused by the server: at
    most 32764 bytes, no NUL byte), a page number and a page size of at
    least 1, [list_gestures] answers with
    [min page_size (matches - (page-1)*page_size)] entries. *)
Theorem page_length (E : Engine) (s : Store) (q category : option string)
    (page page_size : Z) :
  plain_query q -> 1 <= page -> 1 <= page_size ->
  (page - 1) * page_size <= INT64_MAX -> page_size <= INT64_MAX ->
  ∃ l, list_gestures E (Some s) q category page page_size = Ok l
       ∧ length l
         = Nat.min (Z.to_nat page_size)
             (length (selected_gestures E s q category)
              - Z.to_nat ((page - 1) * page_size))
       ∧ ((length (selected_gestures E s q category)
           <= Z.to_nat ((page - 1) * page_size))%nat -> l = []).
Proof.
  intros Hq Hp Hs Hn Hm. eexists. split; [by apply list_gestures_plain|].
  unfold list_gestures_spec. fold (selected_gestures E s q category). split.
  - by rewrite length_fmap, length_take, length_drop.
  - intros Hlen. by rewrite drop_ge, take_nil.
Qed.

(** Page 3 of size 2 of the seeded store is past the end: empty. *)
Lemma page_length_witness :
  list_gestures ascii_engine seeded None None 3 2 = Ok [].
Proof.
  destruct (page_length ascii_engine seeded_store None None 3 2)
    as (l & Hl & _ & Hnil).
  - intros x [=].
  - lia.
  - lia.
  - vm_compute. discriminate.
  - vm_compute. discriminate.
  - rewrite Hnil in Hl by (vm_compute; lia). exact Hl.
Defined.

(** ** Letter case in [list_gestures] *)

Lemma lower_empty (x : string) : lower x = "" -> x = "".
Proof. by destruct x. Qed.

Lemma length_lower (s : string) : String.length (lower s) = String.length s.
Proof. induction s as [|b s IH]; simpl; by rewrite ?IH. Qed.

Lemma N_of_ascii_lower_char (b : ascii) :
  N_of_ascii (lower_char b) = ascii_lower (N_of_ascii b).
Proof. by destruct b as [[] [] [] [] [] [] [] []]. Qed.

Lemma ascii_lower_high (n : N) : (91 <= n)%N -> ascii_lower n = n.
Proof.
  intros Hn. unfold ascii_lower.
  by rewrite (proj2 (N.leb_gt n 90)), andb_false_r by lia.
Qed.

Lemma fold_ascii_lower (E : Engine) (c : N) :
  (c < 128)%N -> fold E (ascii_lower c) = fold E c.
Proof.
  intros Hc. destruct ((65 <=? c) && (c <=? 90))%N eqn:Hup.
  - assert (ascii_lower c = (c + 32)%N) as Hl
      by (unfold ascii_lower; by rewrite Hup).
    unfold fold. rewrite Hl, (proj2 (N.ltb_lt _ _) Hc).
    apply andb_true_iff in Hup as [H1%N.leb_le H2%N.leb_le].
    rewrite (proj2 (N.ltb_lt (c + 32) 128)) by lia.
    unfold ascii_lower.
    by rewrite (proj2 (N.leb_gt (c + 32) 90)), andb_false_r by lia.
  - assert (ascii_lower c = c) as -> by (unfold ascii_lower; by rewrite Hup).
    done.
Qed.

Lemma continuation_lower (s : string) :
  continuation (lower s)
  = (fun cr => (cr.1, lower cr.2)) <$> continuation s.
Proof.
  destruct s as [|b s]; [done|]. cbn [lower continuation].
  rewrite N_of_ascii_lower_char.
  destruct ((128 <=? N_of_ascii b) && (N_of_ascii b <? 192))%N eqn:Hb.
  - apply andb_true_iff in Hb as [H1%N.leb_le H2].
    rewrite ascii_lower_high by lia.
    by rewrite (proj2 (N.leb_le _ _) H1), H2.
  - unfold ascii_lower.
    destruct ((65 <=? N_of_ascii b) && (N_of_ascii b <=? 90))%N eqn:Hup;
      [|by rewrite Hb].
    apply andb_true_iff in Hup as [H1%N.leb_le H2%N.leb_le].
    by rewrite (proj2 (N.leb_gt 128 (N_of_ascii b + 32))) by lia.
Qed.

(** Lower-casing the bytes of a string changes a code point it reads only
    from an ASCII capital to its small letter. *)
Lemma decode_step_lower (s : string) :
  match decode_step s with
  | Some (c, r) =>
      ∃ c', decode_step (lower s) = Some (c', lower r)
            ∧ (c' = c ∨ ((c < 128)%N ∧ c' = ascii_lower c))
  | None => decode_step (lower s) = None
  end.
Proof.
  destruct s as [|b0 r0]; [done|]. cbn [lower decode_step].
  rewrite N_of_ascii_lower_char.
  destruct (N.ltb_spec (N_of_ascii b0) 192) as [Hlt|Hge].
  - assert ((ascii_lower (N_of_ascii b0) <? 192)%N = true) as ->.
    { apply N.ltb_lt. unfold ascii_lower.
      destruct ((65 <=? N_of_ascii b0) && (N_of_ascii b0 <=? 90))%N eqn:Hup;
        [|done].
      apply andb_true_iff in Hup as [_ H2%N.leb_le]. lia. }
    cbn [default]. eexists. split; [done|].
    destruct (N.lt_ge_cases (N_of_ascii b0) 128) as [H|H]; [by right|].
    left. apply ascii_lower_high. lia.
  - rewrite ascii_lower_high by lia.
    rewrite (proj2 (N.ltb_ge _ _) Hge).
    rewrite !continuation_lower.
    destruct (N_of_ascii b0 <? 224)%N; [|destruct (N_of_ascii b0 <? 240)%N].
    + destruct (continuation r0) as [[c1 r1]|]; cbn; eauto.
    + destruct (continuation r0) as [[c1 r1]|]; cbn; [|by eauto].
      rewrite continuation_lower.
      destruct (continuation r1) as [[c2 r2]|]; cbn; eauto.
    + destruct (continuation r0) as [[c1 r1]|]; cbn; [|by eauto].
      rewrite continuation_lower.
      destruct (continuation r1) as [[c2 r2]|]; cbn; [|by eauto].
      rewrite continuation_lower.
      destruct (continuation r2) as [[c3 r3]|]; cbn; eauto.
Qed.

Lemma decode_fuel_lower (E : Engine) (fuel : nat) (s : string) :
  fold E <$> decode_fuel fuel (lower s) = fold E <$> decode_fuel fuel s.
Proof.
  revert s. induction fuel as [|fuel IH]; intros s; [done|].
  cbn [decode_fuel]. pose proof (decode_step_lower s) as H.
  destruct (decode_step s) as [[c r]|]; [|by rewrite H].
  destruct H as (c' & -> & Hc). cbn [fmap list_fmap]. rewrite IH. f_equal.
  destruct Hc as [->|[Hc ->]]; [done | by apply fold_ascii_lower].
Qed.

Lemma folded_lower (E : Engine) (s : string) :
  folded E (lower s) = folded E s.
Proof.
  unfold folded, utf8_decode. rewrite length_lower. apply decode_fuel_lower.
Qed.

Lemma has_nul_lower (s : string) : has_nul (lower s) = has_nul s.
Proof.
  induction s as [|b s IH]; [done|]. cbn [lower has_nul]. rewrite IH. f_equal.
  by destruct b as [[] [] [] [] [] [] [] []].
Qed.

Lemma pattern_refused_lower (s : string) :
  pattern_refused (lower s) = pattern_refused s.
Proof. unfold pattern_refused. by rewrite length_lower, has_nul_lower. Qed.

Lemma gesture_selected_lower (E : Engine) (x x' : string)
    (category : option string) (d : Doc) :
  lower x = lower x' ->
  gesture_selected E (Some x) category d
  = gesture_selected E (Some x') category d.
Proof.
  intros Hl. unfold gesture_selected, given.
  destruct x as [|a x], x' as [|a' x']; try done.
  cbn [truthy_str].
  by rewrite <- (folded_lower E (String a x)), Hl, folded_lower.
Qed.

(** X16. The name search ignores ASCII letter case: two queries free of
    regex metacharacters that differ only in the case of their letters
    [A]..[Z] get the same answer from [list_gestures], whatever the regex
    engine, the store, the category and the page. *)
Theorem list_gestures_ignores_case (E : Engine) (db : option Store)
    (x x' : string) (category : option string) (page page_size : Z) :
  no_meta x = true -> no_meta x' = true -> lower x = lower x' ->
  list_gestures E db (Some x) category page page_size
  = list_gestures E db (Some x') category page page_size.
Proof.
  intros Hx Hx' Hl. destruct db as [s|]; [|done].
  assert (pattern_refused x = pattern_refused x') as Hr
    by by rewrite <- (pattern_refused_lower x), Hl, pattern_refused_lower.
  destruct (pattern_refused x') eqn:Hr'.
  { assert (x ≠ "" ∧ x' ≠ "") as [Hne Hne'] by (split; by intros ->).
    unfold list_gestures, gesture_filters.
    destruct x as [|a x], x' as [|a' x']; try done. cbn [truthy_str default].
    by rewrite !regex_compile_refused. }
  destruct (gesture_filters_plain E (Some x) category) as (f & Hf & Hsel);
    [by intros ? [= <-]|].
  destruct (gesture_filters_plain E (Some x') category) as (f' & Hf' & Hsel');
    [by intros ? [= <-]|].
  unfold list_gestures, find. rewrite Hf, Hf'.
  rewrite (filter_ext (matches f) (matches f')); [done|].
  intros d. rewrite Hsel, Hsel'. by apply gesture_selected_lower.
Qed.

(** [TERIMA] and [terima] find the same gesture on the seeded store. *)
Lemma list_gestures_ignores_case_witness :
  list_gestures ascii_engine seeded (Some "TERIMA") None 1 20
  = list_gestures ascii_engine seeded (Some "terima") None 1 20
  ∧ list_gestures ascii_engine seeded (Some "terima") None 1 20
    = Ok (gesture_out <$> drop 2 gestures).
Proof.
  split; [|vm_refl].
  apply (list_gestures_ignores_case ascii_engine seeded "TERIMA" "terima"
           None 1 20);
    reflexivity.
Defined.

(** ** Diagnostics: [test_database] *)

(** Slicing counts characters, not bytes. *)
Example str_take_code_points : str_take 3 "héllo" = "hél".
Proof. reflexivity. Qed.

(** X17. The diagnostic lists at most ten collections: the [collections]
    field of [test_database] holds at most 10 names; when the database is
    there, its name could be read and the driver lists the collections,
    they are the first ten the driver lists, all of them when it lists at
    most ten; in every other case, the listing raising among them, the
    field is the empty list. *)
Theorem test_database_collections (db : option Store)
    (DATABASE_URL : option string) (name : Try string)
    (list_collection_names : Try (list string)) :
  ∃ names,
    test_database db DATABASE_URL name list_collection_names !! "collections"
    = Some (strs names)
    ∧ (length names <= 10)%nat
    ∧ (∀ s n collections,
         db = Some s -> name = Returned n ->
         list_collection_names = Returned collections ->
         names = take 10 collections
         ∧ ((length collections <= 10)%nat -> names = collections))
    ∧ (db = None -> names = [])
    ∧ (∀ e, name = Failed e -> names = [])
    ∧ (∀ e, list_collection_names = Failed e -> names = []).
Proof.
  destruct db as [s|], name as [n|e], list_collection_names as [l|e'];
    try (exists []; split_and!; [done | simpl; lia | done..]).
  exists (take 10 l). split_and!; try done.
  - rewrite length_take. lia.
  - intros ? ? ? _ _ [= <-]. split; [done | by apply take_ge].
Qed.

(** X18. The diagnostic always has the same six fields, and its
    [database] field never keeps the initial "Not Available" nor the
    intermediate "Available": without a database it ends as "Available but
    not initialized"; with one, as "Connected & Working" when both calls
    into the driver return, as "Connected but Error:" with the first 80
    characters of the error when the listing raises, and as "Error:" with
    the first 80 characters of the error when reading the name raises.  The
    status is "Connected" exactly when there is a database whose name
    could be read. *)
Theorem test_database_status (db : option Store)
    (DATABASE_URL : option string) (name : Try string)
    (list_collection_names : Try (list string)) :
  dom (test_database db DATABASE_URL name list_collection_names)
  = diagnostic_keys
  ∧ test_database db DATABASE_URL name list_collection_names !! "backend"
    = Some (VStr "✅ Running")
  ∧ test_database db DATABASE_URL name list_collection_names !! "database"
    = Some (VStr (match db, name, list_collection_names with
                  | None, _, _ => "⚠️ Available but not initialized"
                  | Some _, Failed e, _ => "❌ Error: " ++ str_take 80 e
                  | Some _, Returned _, Failed e =>
                      "⚠️ Connected but Error: " ++ str_take 80 e
                  | Some _, Returned _, Returned _ => "✅ Connected & Working"
                  end))
  ∧ test_database db DATABASE_URL name list_collection_names
      !! "connection_status"
    = Some (VStr (match db, name with
                  | Some _, Returned _ => "Connected"
                  | _, _ => "Not Connected"
                  end))
  ∧ test_database db DATABASE_URL name list_collection_names !! "database"
    ≠ Some (VStr "❌ Not Available")
  ∧ test_database db DATABASE_URL name list_collection_names !! "database"
    ≠ Some (VStr "✅ Available").
Proof.
  assert (test_database db DATABASE_URL name list_collection_names
            !! "database"
          = Some (VStr (match db, name, list_collection_names with
                        | None, _, _ => "⚠️ Available but not initialized"
                        | Some _, Failed e, _ => "❌ Error: " ++ str_take 80 e
                        | Some _, Returned _, Failed e =>
                            "⚠️ Connected but Error: " ++ str_take 80 e
                        | Some _, Returned _, Returned _ =>
                            "✅ Connected & Working"
                        end))) as Hdb.
  { destruct db as [s|], name as [n|e], list_collection_names as [l|e'];
      unfold test_database; by rewrite lookup_insert_eq. }
  split_and!.
  - destruct db as [s|], name as [n|e], list_collection_names as [l|e'];
      unfold test_database, diagnostic_keys, dict;
      cbn [list_to_map foldr fst snd];
      rewrite !dom_insert_L, dom_empty_L; set_solver.
  - by destruct db as [s|], name as [n|e], list_collection_names as [l|e'].
  - done.
  - by destruct db as [s|], name as [n|e], list_collection_names as [l|e'].
  - rewrite Hdb.
    destruct db as [s|], name as [n|e], list_collection_names as [l|e'];
      cbn [String.append]; intros [=].
  - rewrite Hdb.
    destruct db as [s|], name as [n|e], list_collection_names as [l|e'];
      cbn [String.append]; intros [=].
Qed.

(** ** Progress: reading what is missing *)

(** X19. [get_progress] reads what is missing as the empty list: it
    answers [{completed_lessons: []}] when the pair has no record, and also
    when the record found for the pair has no [completed_lessons] field. *)
Theorem get_progress_missing (s : Store) (user_email module_slug : string) :
  ((∀ d, d ∈ coll s "progress" -> ¬ progress_key user_email module_slug d) ->
     get_progress (Some s) user_email module_slug
     = dict [("completed_lessons", VList [])])
  ∧ (∀ d, find_one s "progress" (progress_filter user_email module_slug)
          = Some d ->
          d !! "completed_lessons" = None ->
          get_progress (Some s) user_email module_slug
          = dict [("completed_lessons", VList [])]).
Proof.
  split; [apply get_progress_absent|].
  intros d Hf Hd. unfold get_progress.
  fold (progress_filter user_email module_slug). rewrite Hf.
  rewrite (truthy_find_one _ _ _ _ _ _ Hf). unfold get_or. by rewrite Hd.
Qed.

(** A record that carries the pair but no list reads as empty. *)
Lemma get_progress_missing_witness :
  get_progress
    (Some {["progress" := [dict [("user_email", VStr "a@b.c");
                                 ("module_slug", VStr "m")]]]})
    "a@b.c" "m"
  = dict [("completed_lessons", VList [])]
  ∧ get_progress seeded "a@b.c" "m" = dict [("completed_lessons", VList [])].
Proof.
  split.
  - refine (proj2 (get_progress_missing _ "a@b.c" "m")
              (dict [("user_email", VStr "a@b.c"); ("module_slug", VStr "m")])
              _ _); vm_refl.
  - refine (proj1 (get_progress_missing seeded_store "a@b.c" "m") _).
    intros d Hd. vm_compute in Hd. by apply elem_of_nil in Hd.
Defined.

(** ** Favorites: what is and is not checked *)

(** X20. [list_favorites] returns only the requested user's favorites:
    every entry carries the requested email, and there is one entry per
    stored favorite document of that user. *)
Theorem list_favorites_of_user (s : Store) (user_email : string) :
  (∀ e, e ∈ list_favorites (Some s) user_email ->
        e !! "user_email" = Some (VStr user_email))
  ∧ length (list_favorites (Some s) user_email)
    = length (filter (field_is "user_email" user_email) (coll s "favorite")).
Proof.
  rewrite list_favorites_filter. split; [|by rewrite length_fmap].
  intros e (d & -> & [Hd _]%list_elem_of_filter)%list_elem_of_fmap.
  unfold favorite_out, get, field_is in *. by rewrite Hd.
Qed.

(** X21. Favorites are not checked against the gestures: [add_favorite]
    succeeds for a slug that no stored gesture carries, the pair is listed
    afterwards, and [get_gesture] on the listed slug is a 404. *)
Theorem favorite_may_dangle (s : Store) (payload : FavoriteIn.t) :
  no_slug s "gesture" (FavoriteIn.gesture_slug payload) ->
  ∃ s1, add_favorite (Some s) payload = (Some s1, dict [("ok", VBool true)])
    ∧ dict [("user_email", VStr (FavoriteIn.user_email payload));
            ("gesture_slug", VStr (FavoriteIn.gesture_slug payload))]
      ∈ list_favorites (Some s1) (FavoriteIn.user_email payload)
    ∧ get_gesture (Some s1) (FavoriteIn.gesture_slug payload)
      = HTTPException 404 "Gesture not found".
Proof.
  intros Hno.
  destruct (add_favorite_lists_entry s payload) as (s1 & Heq & Hin).
  exists s1. split_and!; [done | done |].
  destruct (add_favorite_frame s payload) as (s2 & Heq2 & Hf).
  rewrite Heq in Heq2. injection Heq2 as <-.
  assert (coll s1 "gesture" = coll s "gesture") as Hc
    by by apply coll_lookup_eq, Hf.
  destruct (get_gesture_cases s1 (FavoriteIn.gesture_slug payload))
    as [[_ Hr]|(d & Hd & _)]; [done|].
  apply first_with_slug_elem in Hd as [Hd Hs]. rewrite Hc in Hd.
  by destruct (Hno d Hd).
Qed.

(** On the seeded store a favorite for the unknown slug [zzz] is accepted
    and dangles. *)
Lemma favorite_may_dangle_witness :
  ∃ s1, add_favorite seeded {| FavoriteIn.user_email := "a@b.c";
                               FavoriteIn.gesture_slug := "zzz" |}
        = (Some s1, dict [("ok", VBool true)])
    ∧ get_gesture (Some s1) "zzz" = HTTPException 404 "Gesture not found".
Proof.
  destruct (favorite_may_dangle seeded_store
              {| FavoriteIn.user_email := "a@b.c";
                 FavoriteIn.gesture_slug := "zzz" |} seeded_no_zzz)
    as (s1 & Heq & _ & H404).
  exists s1. split; [exact Heq | exact H404].
Defined.
